(** * Monte Carlo option pricer: embedding of [main.cpp] and its properties

    The two numerical functions of [main.cpp],
    [calculate_historical_volatility] and [monte_carlo_pricer], are written
    once over an abstract arithmetic (class [Arith]) and instantiated twice:

    - [Binary64.arith]: IEEE 754 binary64, the C++ [double], on Rocq's
      primitive floats; [std::exp] and [std::log] are parameters (record
      [libm]), since libm is not part of the repository;
    - [Exact.arith]: the real numbers, the arithmetic in which the formulas
      of the specification are written.

    The source of randomness ([std::mt19937] with
    [std::normal_distribution]) is a parameter too: a function from the seed
    and the rank of the draw to the variate.

    The reader [read_prices_from_csv] is written on a model of the input
    streams it reads with [std::getline], with [std::stod] as a parameter,
    and [main] as the composition of the three on [double]. *)

From Stdlib Require Import ZArith List Bool Lia.
From Stdlib Require Import Floats Uint63.
From Stdlib Require Import Reals Lra.
From Stdlib Require Import Permutation.
From Stdlib Require Ascii String.
Import ListNotations.

Set Warnings "-inexact-float".

(** ** The arithmetic of the program *)

(** What the source needs of [double]: its literals, the four operations,
    unary minus, [std::sqrt], [std::exp], [std::log], the comparison [<] and
    the conversion of an integer ([int], [size_t]) to [double]. *)
Class Arith (F : Type) : Type := {
  lit_0 : F;        (* 0.0 *)
  lit_0_5 : F;      (* 0.5 *)
  lit_0_20 : F;     (* 0.20 *)
  lit_252 : F;      (* 252.0 *)
  fadd : F -> F -> F;
  fsub : F -> F -> F;
  fmul : F -> F -> F;
  fdiv : F -> F -> F;
  fneg : F -> F;
  fsqrt : F -> F;
  fexp : F -> F;
  flog : F -> F;
  fltb : F -> F -> bool;
  of_int : Z -> F
}.

Declare Scope arith_scope.
Delimit Scope arith_scope with ar.
Infix "+" := fadd : arith_scope.
Infix "-" := fsub : arith_scope.
Infix "*" := fmul : arith_scope.
Infix "/" := fdiv : arith_scope.
Notation "- x" := (fneg x) : arith_scope.

(** ** Machine integers *)

(** [size_t] is 64 bits wide, [int] and [unsigned int] 32 bits. *)
Definition size_t_wrap (z : Z) : Z := z mod 2 ^ 64.
Definition uint_wrap (z : Z) : Z := z mod 2 ^ 32.
Definition INT_MIN : Z := - 2 ^ 31.
Definition INT_MAX : Z := 2 ^ 31 - 1.

(** Conversion of an integer to [int]: the value itself when it fits, its
    two's-complement wrap otherwise. *)
Definition int_wrap (z : Z) : Z := (z + 2 ^ 31) mod 2 ^ 32 - 2 ^ 31.

Definition int_representable (z : Z) : Prop := (INT_MIN <= z <= INT_MAX)%Z.

(** ** The source, over any arithmetic *)

Section Source.

Context {F : Type} {A : Arith F}.

Local Open Scope arith_scope.

(** [std::max(a, b)] is [(a < b) ? b : a]. *)
Definition std_max (a b : F) : F := if fltb a b then b else a.

(** *** MODULE 2: analytics *)

(** The body of the first loop, at index [i]: the state is
    [(log_returns, sum)]. *)
Definition returns_step (prices : list F) (st : list F * F) (i : nat)
  : list F * F :=
  let u_i := flog (nth i prices lit_0 / nth (i - 1) prices lit_0) in
  (fst st ++ [u_i], snd st + u_i).

(** [for (size_t i = 1; i < prices.size(); ++i)]. *)
Definition returns_loop (prices : list F) : list F * F :=
  fold_left (returns_step prices) (seq 1 (length prices - 1)) ([], lit_0).

(** [for (double u : log_returns) sq_sum += (u - mean) * (u - mean);]. *)
Definition sq_dev_loop (mean : F) (log_returns : list F) : F :=
  fold_left (fun sq_sum u => sq_sum + (u - mean) * (u - mean))
            log_returns lit_0.

Definition calculate_historical_volatility (prices : list F) : F :=
  if (length prices <? 2)%nat then lit_0_20
  else
    let '(log_returns, sum) := returns_loop prices in
    let size := Z.of_nat (length log_returns) in
    let mean := sum / of_int size in
    let sq_sum := sq_dev_loop mean log_returns in
    fsqrt (sq_sum / of_int (size_t_wrap (size - 1))) * fsqrt lit_252.

(** *** MODULE 3: the Monte Carlo engine *)

Record SimulationResult : Type := {
  price : F;
  std_error : F;
  avg_final_price : F
}.

(** The three reduction variables [sum_payoffs], [sum_sq_payoffs] and
    [sum_ST]; inside the parallel region every thread has a private copy. *)
Record Sums : Type := {
  sum_payoffs : F;
  sum_sq_payoffs : F;
  sum_ST : F
}.

Definition sums_0 : Sums :=
  {| sum_payoffs := lit_0; sum_sq_payoffs := lit_0; sum_ST := lit_0 |}.

(** The combiner of [reduction(+: ...)]. *)
Definition sums_add (a b : Sums) : Sums :=
  {| sum_payoffs := sum_payoffs a + sum_payoffs b;
     sum_sq_payoffs := sum_sq_payoffs a + sum_sq_payoffs b;
     sum_ST := sum_ST a + sum_ST b |}.

(** What the run does not decide: the size of the thread team and the value
    each thread reads from [system_clock] (its tick count since the epoch)
    when it enters the parallel region. *)
Record omp_env : Type := {
  num_threads : positive;
  clock_now : nat -> Z
}.

(** [unsigned int seed = now().time_since_epoch().count() + omp_get_thread_num()]. *)
Definition thread_seed (env : omp_env) (t : nat) : Z :=
  uint_wrap (clock_now env t + Z.of_nat t).

(** The random source: [normal_draw seed k] is the [k]-th value (from 0)
    that [distribution(generator)] returns on a [std::mt19937] constructed
    from [seed]. *)
Variable normal_draw : Z -> nat -> F.

(** [#pragma omp for] with the default (static) schedule: the [n]
    iterations are cut into [num_threads] contiguous blocks, the first
    [n mod num_threads] of them one iteration longer. *)
Definition static_share (n nt t : nat) : nat :=
  (n / nt + (if t <? n mod nt then 1 else 0))%nat.

(** Trip count of [for (int i = 0; i < N; ++i)]. *)
Definition trip_count (N : Z) : nat := Z.to_nat N.

Definition drift_of (r sigma T : F) : F :=
  (r - lit_0_5 * sigma * sigma) * T.

Definition vol_sqrt_T_of (sigma T : F) : F := sigma * fsqrt T.

Definition discount_factor_of (r T : F) : F := fexp (- r * T).

(** One iteration of the loop, on the thread's private sums. *)
Definition trial (S0 K drift vol_sqrt_T : F) (acc : Sums) (Z : F) : Sums :=
  let S_T := S0 * fexp (drift + vol_sqrt_T * Z) in
  let payoff := std_max (S_T - K) lit_0 in
  {| sum_payoffs := sum_payoffs acc + payoff;
     sum_sq_payoffs := sum_sq_payoffs acc + payoff * payoff;
     sum_ST := sum_ST acc + S_T |}.

(** The variates thread [t] draws in its first [k] iterations. *)
Definition thread_draws (env : omp_env) (t k : nat) : list F :=
  map (normal_draw (thread_seed env t)) (seq 0 k).

(** The private sums of thread [t] after its first [k] iterations. *)
Definition thread_sums (env : omp_env) (S0 K r sigma T : F) (t k : nat)
  : Sums :=
  fold_left (trial S0 K (drift_of r sigma T) (vol_sqrt_T_of sigma T))
            (thread_draws env t k) sums_0.

(** The number of iterations thread [t] executes. *)
Definition thread_share (env : omp_env) (N : Z) (t : nat) : nat :=
  static_share (trip_count N) (Pos.to_nat (num_threads env)) t.

(** The private sums of every thread at the end of the parallel region. *)
Definition team_sums (env : omp_env) (S0 K r sigma T : F) (N : Z)
  : list Sums :=
  map (fun t => thread_sums env S0 K r sigma T t (thread_share env N t))
      (seq 0 (Pos.to_nat (num_threads env))).

(** The end of the region: the private copies are added to the original
    variables, which hold 0.0. *)
Definition reduction (privates : list Sums) : Sums :=
  fold_left sums_add privates sums_0.

(** The statistics after the region (lines 103 to 107). *)
Definition statistics (totals : Sums) (discount_factor : F) (N : Z)
  : SimulationResult :=
  let mean_payoff := sum_payoffs totals / of_int N in
  let variance := sum_sq_payoffs totals / of_int N - mean_payoff * mean_payoff in
  let std_error := fsqrt variance / fsqrt (of_int N) * discount_factor in
  {| price := mean_payoff * discount_factor;
     std_error := std_error;
     avg_final_price := sum_ST totals / of_int N |}.

Definition monte_carlo_pricer (env : omp_env) (S0 K r sigma T : F) (N : Z)
  : SimulationResult :=
  statistics (reduction (team_sums env S0 K r sigma T N))
             (discount_factor_of r T) N.

(** The variates of a whole run, thread after thread. *)
Definition team_draws (env : omp_env) (N : Z) : list F :=
  concat (map (fun t => thread_draws env t (thread_share env N t))
              (seq 0 (Pos.to_nat (num_threads env)))).

(** The number of trials a run samples, over the whole team. *)
Definition trials_run (env : omp_env) (N : Z) : nat :=
  list_sum (map (thread_share env N)
                (seq 0 (Pos.to_nat (num_threads env)))).

End Source.

Arguments SimulationResult F : clear implicits.
Arguments Sums F : clear implicits.

(** ** IEEE 754 binary64: the arithmetic of the compiled program *)

Module Binary64.

(** [std::exp] and [std::log] on [double]. *)
Record libm : Type := {
  exp64 : float -> float;
  log64 : float -> float
}.

(** Conversion of an integer of magnitude below [2^63] to [double],
    rounding to nearest: exact on every [int], and on every [size_t] a
    vector can have as its size. *)
Definition of_int64 (z : Z) : float :=
  if (z <? 0)%Z then PrimFloat.opp (PrimFloat.of_uint63 (Uint63.of_Z (- z)))
  else PrimFloat.of_uint63 (Uint63.of_Z z).

Definition arith (m : libm) : Arith float := {|
  lit_0 := 0%float;
  lit_0_5 := 0.5%float;
  lit_0_20 := 0.20%float;
  lit_252 := 252%float;
  fadd := PrimFloat.add;
  fsub := PrimFloat.sub;
  fmul := PrimFloat.mul;
  fdiv := PrimFloat.div;
  fneg := PrimFloat.opp;
  fsqrt := PrimFloat.sqrt;
  fexp := exp64 m;
  flog := log64 m;
  fltb := PrimFloat.ltb;
  of_int := of_int64
|}.

(** The values a [std::normal_distribution] returns: zeros and finite
    non-zero numbers, no infinity and no NaN. *)
Definition is_finite64 (x : float) : bool :=
  match Prim2SF x with
  | S754_zero _ | S754_finite _ _ _ => true
  | _ => false
  end.

(** A concrete [libm] to run the model on: short series, which agree with
    the C library where the examples below evaluate them, [exp(+-0) = 1] and
    [log(1) = +0] (C17, F.10.3.1 and F.10.3.7). *)
Definition exp_series (x : float) : float :=
  (1 + x * (1 + x / 2 * (1 + x / 3)))%float.

Definition log_series (x : float) : float :=
  let y := ((x - 1) / (x + 1))%float in
  (2 * y * (1 + y * y / 3))%float.

Definition series_libm : libm :=
  {| exp64 := exp_series; log64 := log_series |}.

(** A concrete random source to run the model on: a fixed pattern of seven
    values between -1.5 and 1.5, entered at a place the seed chooses. *)
Definition pattern_draw (seed : Z) (k : nat) : float :=
  (of_int64 ((seed + Z.of_nat k) mod 7 - 3) / 2)%float.

End Binary64.

(** ** The real numbers: exact arithmetic *)

Module Exact.

(** Division and square root are Stdlib's total [Rdiv] and [sqrt], which
    give 0 where [double] gives NaN (a zero divisor, a negative radicand):
    the statements at the reals either assume the sample count and the
    maturity positive or have the same quotient and root on both sides. *)
Definition Rltb (a b : R) : bool := if Rlt_dec a b then true else false.

Definition arith : Arith R := {|
  lit_0 := 0%R;
  lit_0_5 := 0.5%R;
  lit_0_20 := 0.20%R;
  lit_252 := 252%R;
  fadd := Rplus;
  fsub := Rminus;
  fmul := Rmult;
  fdiv := Rdiv;
  fneg := Ropp;
  fsqrt := sqrt;
  fexp := exp;
  flog := ln;
  fltb := Rltb;
  of_int := IZR
|}.

(** A concrete random source to run the model on. *)
Definition pattern_draw (seed : Z) (k : nat) : R :=
  (IZR ((seed + Z.of_nat k) mod 7 - 3) / 2)%R.

End Exact.

(** Three concrete teams: one thread; two threads of which thread 1 enters
    the parallel region one clock tick before thread 0; four threads that
    read the same tick. *)
Definition env_single : omp_env :=
  {| num_threads := 1%positive; clock_now := fun _ => 1770000000000000000%Z |}.

Definition env_race : omp_env :=
  {| num_threads := 2%positive;
     clock_now := fun t => match t with
                           | O => 1770000000000000001%Z
                           | _ => 1770000000000000000%Z
                           end |}.

Definition env_quad : omp_env :=
  {| num_threads := 4%positive; clock_now := fun _ => 1770000000000000000%Z |}.

(** A team of seven threads that all read the tick after that one. *)
Definition env_seven_late : omp_env :=
  {| num_threads := 7%positive; clock_now := fun _ => 1770000000000000001%Z |}.

(** ** The formulas of the specification *)

Module Spec.

(** *** Section 4.1, over any arithmetic *)

Section Volatility.

Context {F : Type} {A : Arith F}.
Local Open Scope arith_scope.

(** The sum of a sequence, taken from left to right. *)
Definition total (l : list F) : F := fold_left fadd l lit_0.

(** [u_i = ln(P_i / P_{i-1})] for each consecutive pair. *)
Fixpoint log_returns_of (prices : list F) : list F :=
  match prices with
  | p_prev :: (p_i :: _) as rest => flog (p_i / p_prev) :: log_returns_of rest
  | _ => []
  end.

Definition sample_mean (us : list F) : F :=
  total us / of_int (Z.of_nat (length us)).

(** Bessel's correction: the sum of squared deviations over [count - 1]. *)
Definition sample_variance (us : list F) : F :=
  let mu := sample_mean us in
  total (map (fun u => (u - mu) * (u - mu)) us)
  / of_int (Z.of_nat (length us) - 1).

Definition annualized_volatility (prices : list F) : F :=
  fsqrt (sample_variance (log_returns_of prices)) * fsqrt lit_252.

End Volatility.

(** *** Section 4.2, over the reals *)

Local Open Scope R_scope.

Definition Rsum (l : list R) : R := fold_right Rplus 0 l.

(** [S_T = S0 * exp((r - 0.5 sigma^2) T + sigma sqrt(T) Z)]. *)
Definition terminal_price (S0 r sigma T Z : R) : R :=
  S0 * exp ((r - 0.5 * sigma ^ 2) * T + sigma * sqrt T * Z).

(** [payoff = max(S_T - K, 0)]. *)
Definition call_payoff (S_T K : R) : R := Rmax (S_T - K) 0.

End Spec.

(** ** MODULE 1: the data reader *)

Module Csv.

Import Ascii String.
Local Open Scope string_scope.

(** An input stream, [std::ifstream] or [std::stringstream]: the characters
    not read yet and the two state bits the reader tests. *)
Record istream : Type := {
  buffer : string;
  eofbit : bool;
  failbit : bool
}.

(** A stream freshly opened on [s]. *)
Definition stream_of (s : string) : istream :=
  {| buffer := s; eofbit := false; failbit := false |}.

Definition good (strm : istream) : bool := negb (eofbit strm) && negb (failbit strm).

(** The characters before the first [delim], and what follows it when there
    is one. *)
Fixpoint extract_until (delim : ascii) (s : string) : string * option string :=
  match s with
  | EmptyString => (EmptyString, None)
  | String c s' =>
      if Ascii.eqb c delim then (EmptyString, Some s')
      else let (field, rest) := extract_until delim s' in (String c field, rest)
  end.

Definition is_empty (s : string) : bool :=
  match s with EmptyString => true | String _ _ => false end.

(** [std::getline(strm, str, delim)]. On a stream that is not good the sentry
    sets [failbit] and [str] is left as it is. Otherwise [str] is erased and
    filled up to the delimiter, which is read and dropped, or up to the end
    of the input, which sets [eofbit], and [failbit] too when no character
    was read. *)
Definition getline (strm : istream) (str : string) (delim : ascii)
  : istream * string :=
  if good strm then
    match extract_until delim (buffer strm) with
    | (field, Some rest) =>
        ({| buffer := rest; eofbit := false; failbit := false |}, field)
    | (field, None) =>
        ({| buffer := EmptyString; eofbit := true; failbit := is_empty field |},
         field)
    end
  else ({| buffer := buffer strm; eofbit := eofbit strm; failbit := true |}, str).

(** [value_str.back()]. *)
Fixpoint back (s : string) : ascii :=
  match s with
  | EmptyString => zero
  | String c EmptyString => c
  | String _ s' => back s'
  end.

(** [std::isdigit] in the "C" locale. *)
Definition isdigit (c : ascii) : bool :=
  (48 <=? nat_of_ascii c)%nat && (nat_of_ascii c <=? 57)%nat.

Definition newline : ascii := ascii_of_nat 10.
Definition comma : ascii := ascii_of_nat 44.
Definition carriage_return : ascii := ascii_of_nat 13.

(** [while (std::getline(ss, value_str, ',')) {}]: the loop runs while the
    stream has not failed. [fuel] bounds the number of calls. *)
Fixpoint last_field_loop (fuel : nat) (ss : istream) (value_str : string)
  : string :=
  match fuel with
  | O => value_str
  | S fuel' =>
      let (ss', value_str') := getline ss value_str comma in
      if failbit ss' then value_str'
      else last_field_loop fuel' ss' value_str'
  end.

(** The value of [value_str] after the inner loop on [line]: each call
    but the last two reads a character at least. *)
Definition last_field (line : string) : string :=
  last_field_loop (S (S (length line))) (stream_of line) EmptyString.

Section Reader.

Context {F : Type}.

(** [std::stod]: the number a string starts with, [None] when it throws
    ([std::invalid_argument], [std::out_of_range]). *)
Variable stod : string -> option F.

(** The body of the outer loop on one line: the price it pushes, if any.
    An exception of [std::stod] is caught and the line skipped. *)
Definition line_price (line : string) : option F :=
  let value_str := last_field line in
  if negb (is_empty value_str) && isdigit (back value_str)
  then stod value_str
  else None.

(** [prices.push_back(...)], when the line has a price. *)
Definition push_back (prices : list F) (p : option F) : list F :=
  match p with
  | Some x => prices ++ [x]
  | None => prices
  end.

(** [while (std::getline(file, line)) { ... }]. *)
Fixpoint read_loop (fuel : nat) (file : istream) (line : string)
         (prices : list F) : list F :=
  match fuel with
  | O => prices
  | S fuel' =>
      let (file', line') := getline file line newline in
      if failbit file' then prices
      else read_loop fuel' file' line' (push_back prices (line_price line'))
  end.

(** [file] is the content of the file named, [None] when it cannot be
    opened; the message written to [std::cerr] in that case is left out. *)
Definition read_prices_from_csv (file : option string) : list F :=
  match file with
  | None => []
  | Some content =>
      read_loop (S (S (length content))) (stream_of content) EmptyString []
  end.

End Reader.

(** *** The reader in closed form *)

(** The fields of [s] between the occurrences of [d]; never empty. *)
Fixpoint split_on (d : ascii) (s : string) : list string :=
  match s with
  | EmptyString => [EmptyString]
  | String c s' =>
      if Ascii.eqb c d then EmptyString :: split_on d s'
      else match split_on d s' with
           | field :: fields => String c field :: fields
           | [] => [String c EmptyString]
           end
  end.

(** The lines of a file: the text between the newlines, without the empty
    piece after a final newline. *)
Definition file_lines (content : string) : list string :=
  let pieces := split_on newline content in
  if is_empty (List.last pieces EmptyString) then List.removelast pieces
  else pieces.

(** The prices of a list of lines, in order. *)
Definition prices_of_lines {F : Type} (stod : string -> option F)
           (lines : list string) : list F :=
  List.flat_map (fun line => match line_price stod line with
                             | Some p => [p]
                             | None => []
                             end) lines.

(** The inverse of [split_on]: the fields with [d] between them. *)
Fixpoint join (d : ascii) (fields : list string) : string :=
  match fields with
  | [] => EmptyString
  | [field] => field
  | field :: rest => field ++ String d (join d rest)
  end.

(** Whether [c] occurs in [s]. *)
Fixpoint occurs (c : ascii) (s : string) : bool :=
  match s with
  | EmptyString => false
  | String c' s' => Ascii.eqb c' c || occurs c s'
  end.

(** A file with DOS line ends: every line is followed by CR LF. *)
Definition crlf_file (lines : list string) : string :=
  List.fold_right (fun line rest => line ++ String carriage_return
                                     (String newline rest))
                  EmptyString lines.

(** A concrete [stod] to run the model on: the natural number that the
    leading digits of the string write; it throws when there is none. *)
Fixpoint leading_digits (s : string) (acc : option nat) : option nat :=
  match s with
  | EmptyString => acc
  | String c s' =>
      if isdigit c
      then leading_digits s'
             (Some (10 * match acc with Some n => n | None => 0 end
                    + (nat_of_ascii c - 48))%nat)
      else acc
  end.

Definition stod_nat (s : string) : option nat := leading_digits s None.

End Csv.

(** ** [main]: from the file to the engine *)

Module Program.

Import String.

(** The file [main] reads: [(argc > 1) ? argv[1] : "market_data.csv"]. *)
Definition csv_file (argv : list String.string) : String.string :=
  match argv with
  | _ :: file :: _ => file
  | _ => "market_data.csv"%string
  end.

(** The parameters [main] passes to the engine. *)
Record PricingParameters : Type := {
  spot : float;
  strike : float;
  riskFreeRate : float;
  volatility : float;
  maturity : float;
  sampleCount : Z
}.

(** Lines 115 to 140: the defaults, and what a non-empty history changes. *)
Definition parameters_of (m : Binary64.libm) (history : list float)
  : PricingParameters :=
  match history with
  | [] =>
      {| spot := 100%float; strike := 100%float; riskFreeRate := 0.05%float;
         volatility := 0.2%float; maturity := 1%float;
         sampleCount := 1000000000 |}
  | _ :: _ =>
      let S0 := List.last history 0%float in
      {| spot := S0; strike := S0; riskFreeRate := 0.05%float;
         volatility :=
           calculate_historical_volatility (A := Binary64.arith m) history;
         maturity := 1%float;
         sampleCount := 1000000000 |}
  end.

(** The result [main] reports, for a file system [fs] (the content of each
    file that can be opened) and the arguments [argv]; what it prints and
    the time it measures are left out. *)
Definition main (m : Binary64.libm) (stod : String.string -> option float)
           (fs : String.string -> option String.string)
           (argv : list String.string)
           (draw : Z -> nat -> float) (env : omp_env)
  : SimulationResult float :=
  let history := Csv.read_prices_from_csv stod (fs (csv_file argv)) in
  let p := parameters_of m history in
  monte_carlo_pricer (A := Binary64.arith m) draw env
                     (spot p) (strike p) (riskFreeRate p) (volatility p)
                     (maturity p) (sampleCount p).

End Program.

(** ** Facts that hold in any arithmetic *)

Section SourceFacts.

Context {F : Type} {A : Arith F}.
Local Open Scope arith_scope.

(** *** The loops of [calculate_historical_volatility] *)

(** Past index 0 the loop body reads the same two cells in [p :: l] at
    [i + 1] as in [l] at [i]. *)
Lemma returns_step_shift (p : F) (l : list F) (st : list F * F) (i : nat) :
  (1 <= i)%nat ->
  returns_step (p :: l) st (S i) = returns_step l st i.
Proof.
  intros Hi. unfold returns_step.
  destruct i as [|j]; [lia|].
  replace (S (S j) - 1)%nat with (S j) by lia.
  replace (S j - 1)%nat with j by lia.
  reflexivity.
Qed.

Lemma returns_fold_shift (p : F) (l : list F) (k : nat) :
  forall (a : nat) (st : list F * F),
    (1 <= a)%nat ->
    fold_left (returns_step (p :: l)) (seq (S a) k) st =
    fold_left (returns_step l) (seq a k) st.
Proof.
  induction k as [|k IH]; intros a st Ha; [reflexivity|].
  cbn [seq fold_left].
  rewrite returns_step_shift by assumption.
  apply IH. lia.
Qed.

(** The invariant of the first loop, from any state: the log-returns are
    appended in order and added to [sum] from left to right. *)
Lemma returns_fold_spec (prices : list F) :
  forall st : list F * F,
    fold_left (returns_step prices) (seq 1 (length prices - 1)) st =
    (fst st ++ Spec.log_returns_of prices,
     fold_left fadd (Spec.log_returns_of prices) (snd st)).
Proof.
  induction prices as [|p0 rest IH]; intros st.
  - cbn. rewrite app_nil_r. destruct st; reflexivity.
  - destruct rest as [|p1 rest'].
    + cbn. rewrite app_nil_r. destruct st; reflexivity.
    + replace (length (p0 :: p1 :: rest') - 1)%nat
        with (S (length (p1 :: rest') - 1)) by (cbn [length]; lia).
      cbn [seq fold_left].
      rewrite returns_fold_shift by lia.
      rewrite IH.
      cbn [Spec.log_returns_of fold_left].
      unfold returns_step at 1 2. cbn [fst snd nth Nat.sub].
      rewrite <- app_assoc. reflexivity.
Qed.

Lemma returns_loop_spec (prices : list F) :
  returns_loop prices =
  (Spec.log_returns_of prices, Spec.total (Spec.log_returns_of prices)).
Proof.
  unfold returns_loop. rewrite returns_fold_spec. reflexivity.
Qed.

Lemma log_returns_length (prices : list F) :
  length (Spec.log_returns_of prices) = (length prices - 1)%nat.
Proof.
  induction prices as [|p0 rest IH]; [reflexivity|].
  destruct rest as [|p1 rest']; [reflexivity|].
  cbn [Spec.log_returns_of length] in *. lia.
Qed.

(** The second loop adds the squared deviations from left to right. *)
Lemma sq_dev_fold_spec (mean : F) (us : list F) :
  forall acc : F,
    fold_left (fun sq_sum u => sq_sum + (u - mean) * (u - mean)) us acc =
    fold_left fadd (map (fun u => (u - mean) * (u - mean)) us) acc.
Proof.
  induction us as [|u us IH]; intros acc; [reflexivity|].
  cbn [map fold_left]. apply IH.
Qed.

(** *** The parallel loop *)

Variable normal_draw : Z -> nat -> F.

(** One more iteration of a thread is one more [trial] on its sums, with
    its next variate. *)
Lemma thread_sums_S (env : omp_env) (S0 K r sigma T : F) (t k : nat) :
  thread_sums normal_draw env S0 K r sigma T t (S k) =
  trial S0 K (drift_of r sigma T) (vol_sqrt_T_of sigma T)
        (thread_sums normal_draw env S0 K r sigma T t k)
        (normal_draw (thread_seed env t) k).
Proof.
  unfold thread_sums, thread_draws.
  rewrite seq_S, map_app, fold_left_app. reflexivity.
Qed.

Lemma thread_draws_length (env : omp_env) (t k : nat) :
  length (thread_draws normal_draw env t k) = k.
Proof. unfold thread_draws. now rewrite length_map, length_seq. Qed.

End SourceFacts.

(** *** The static schedule *)

Lemma list_sum_cons (a : nat) (l : list nat) :
  list_sum (a :: l) = a + list_sum l.
Proof. reflexivity. Qed.

Lemma list_sum_const_plus (q : nat) (f : nat -> nat) (l : list nat) :
  list_sum (map (fun t => q + f t) l) = length l * q + list_sum (map f l).
Proof.
  induction l as [|t l IH]; [reflexivity|].
  cbn [map length]. rewrite !list_sum_cons, IH. lia.
Qed.

(** Of the first [m] threads, [min r m] are below [r]. *)
Lemma count_below (r m : nat) :
  list_sum (map (fun t => if t <? r then 1 else 0) (seq 0 m)) = Nat.min r m.
Proof.
  induction m as [|m IH]; [now rewrite Nat.min_0_r|].
  rewrite seq_S, map_app, list_sum_app, IH.
  cbn [map Nat.add]. rewrite list_sum_cons. cbn [list_sum fold_right].
  destruct (Nat.ltb_spec m r); lia.
Qed.

(** The shares of a non-empty team add up to the trip count. *)
Lemma static_share_total (n nt : nat) :
  (0 < nt)%nat ->
  list_sum (map (static_share n nt) (seq 0 nt)) = n.
Proof.
  intros Hnt.
  change (static_share n nt)
    with (fun t => n / nt + (if t <? n mod nt then 1 else 0)).
  rewrite (list_sum_const_plus (n / nt)
             (fun t => if t <? n mod nt then 1 else 0)).
  rewrite length_seq, count_below.
  pose proof (Nat.mod_upper_bound n nt ltac:(lia)) as Hr.
  rewrite Nat.min_l by lia.
  pose proof (Nat.div_mod_eq n nt) as Hd. lia.
Qed.

Lemma trials_run_trip_count (env : omp_env) (N : Z) :
  trials_run env N = trip_count N.
Proof.
  unfold trials_run, thread_share.
  apply static_share_total. lia.
Qed.

(** A run draws as many variates as the loop has iterations. *)
Lemma team_draws_length {F : Type} (normal_draw : Z -> nat -> F)
      (env : omp_env) (N : Z) :
  length (team_draws normal_draw env N) = trip_count N.
Proof.
  unfold team_draws.
  rewrite length_concat, map_map.
  rewrite (map_ext _ (thread_share env N)).
  - apply trials_run_trip_count.
  - intros t. apply thread_draws_length.
Qed.

(** ** Facts of exact arithmetic *)

Module ExactFacts.

Import Spec.
#[local] Existing Instance Exact.arith.
Local Open Scope R_scope.

(** [std::max] on the reals is the maximum. *)
Lemma std_max_Rmax (a b : R) : std_max a b = Rmax a b.
Proof.
  unfold std_max, Rmax. cbn [fltb Exact.arith]. unfold Exact.Rltb.
  destruct (Rlt_dec a b) as [Hlt|Hge], (Rle_dec a b) as [Hle|Hgt];
    try reflexivity; lra.
Qed.

Lemma drift_exact (r sigma T : R) :
  drift_of r sigma T = (r - 0.5 * sigma ^ 2) * T.
Proof. unfold drift_of. cbn. ring. Qed.

(** A trial in the vocabulary of the specification. *)
Lemma trial_exact (S0 K r sigma T : R) (acc : Sums R) (z : R) :
  trial S0 K (drift_of r sigma T) (vol_sqrt_T_of sigma T) acc z =
  {| sum_payoffs := sum_payoffs acc + call_payoff (terminal_price S0 r sigma T z) K;
     sum_sq_payoffs :=
       sum_sq_payoffs acc + (call_payoff (terminal_price S0 r sigma T z) K) ^ 2;
     sum_ST := sum_ST acc + terminal_price S0 r sigma T z |}.
Proof.
  unfold trial. rewrite std_max_Rmax, drift_exact.
  unfold call_payoff, terminal_price, vol_sqrt_T_of. cbn.
  f_equal. ring.
Qed.

Lemma Rsum_nil : Rsum [] = 0.
Proof. reflexivity. Qed.

Lemma Rsum_cons (x : R) (l : list R) : Rsum (x :: l) = x + Rsum l.
Proof. reflexivity. Qed.

Lemma Rsum_app (l1 l2 : list R) : Rsum (l1 ++ l2) = Rsum l1 + Rsum l2.
Proof.
  induction l1 as [|x l1 IH].
  - cbn [app]. rewrite Rsum_nil. ring.
  - cbn [app]. rewrite !Rsum_cons, IH. ring.
Qed.

(** The sums of a thread, from any starting value, over any draws. *)
Lemma trial_fold_sums (S0 K r sigma T : R) (zs : list R) :
  forall acc : Sums R,
    fold_left (trial S0 K (drift_of r sigma T) (vol_sqrt_T_of sigma T)) zs acc =
    {| sum_payoffs :=
         sum_payoffs acc
         + Rsum (map (fun z => call_payoff (terminal_price S0 r sigma T z) K) zs);
       sum_sq_payoffs :=
         sum_sq_payoffs acc
         + Rsum (map (fun z => (call_payoff (terminal_price S0 r sigma T z) K) ^ 2) zs);
       sum_ST :=
         sum_ST acc + Rsum (map (terminal_price S0 r sigma T) zs) |}.
Proof.
  induction zs as [|z zs IH]; intros acc.
  - cbn [fold_left map]. rewrite Rsum_nil. destruct acc; cbn. f_equal; ring.
  - cbn [fold_left map]. rewrite IH, trial_exact, !Rsum_cons.
    cbn [sum_payoffs sum_sq_payoffs sum_ST]. f_equal; ring.
Qed.

(** The reduction adds each field over the team. *)
Lemma reduction_fold_sums (l : list (Sums R)) :
  forall acc : Sums R,
    fold_left sums_add l acc =
    {| sum_payoffs := sum_payoffs acc + Rsum (map sum_payoffs l);
       sum_sq_payoffs := sum_sq_payoffs acc + Rsum (map sum_sq_payoffs l);
       sum_ST := sum_ST acc + Rsum (map sum_ST l) |}.
Proof.
  induction l as [|s l IH]; intros acc.
  - cbn [fold_left map]. rewrite Rsum_nil. destruct acc; cbn. f_equal; ring.
  - cbn [fold_left map]. rewrite IH, !Rsum_cons. unfold sums_add.
    cbn [sum_payoffs sum_sq_payoffs sum_ST fadd Exact.arith]. f_equal; ring.
Qed.

Lemma reduction_exact (l : list (Sums R)) :
  reduction l =
  {| sum_payoffs := Rsum (map sum_payoffs l);
     sum_sq_payoffs := Rsum (map sum_sq_payoffs l);
     sum_ST := Rsum (map sum_ST l) |}.
Proof.
  unfold reduction. rewrite reduction_fold_sums.
  cbn [sums_0 sum_payoffs sum_sq_payoffs sum_ST lit_0 Exact.arith].
  f_equal; ring.
Qed.

Lemma Rsum_map_concat (f : R -> R) (g : nat -> list R) (ts : list nat) :
  Rsum (map f (concat (map g ts))) = Rsum (map (fun t => Rsum (map f (g t))) ts).
Proof.
  induction ts as [|t ts IH]; [reflexivity|].
  cbn [map concat]. rewrite map_app, Rsum_app, Rsum_cons, IH. reflexivity.
Qed.

(** The sums of a thread that starts from zero. *)
Lemma thread_sums_exact (draw : Z -> nat -> R) (env : omp_env)
      (S0 K r sigma T : R) (t k : nat) :
  thread_sums draw env S0 K r sigma T t k =
  {| sum_payoffs :=
       Rsum (map (fun z => call_payoff (terminal_price S0 r sigma T z) K)
                 (thread_draws draw env t k));
     sum_sq_payoffs :=
       Rsum (map (fun z => (call_payoff (terminal_price S0 r sigma T z) K) ^ 2)
                 (thread_draws draw env t k));
     sum_ST := Rsum (map (terminal_price S0 r sigma T) (thread_draws draw env t k)) |}.
Proof.
  unfold thread_sums. rewrite trial_fold_sums.
  cbn [sums_0 sum_payoffs sum_sq_payoffs sum_ST lit_0 Exact.arith].
  f_equal; ring.
Qed.

(** The totals after the reduction are the sums over all the trials of the
    run, whatever the team and its schedule. *)
Lemma team_totals_exact (draw : Z -> nat -> R) (env : omp_env)
      (S0 K r sigma T : R) (N : Z) :
  reduction (team_sums draw env S0 K r sigma T N) =
  {| sum_payoffs :=
       Rsum (map (fun z => call_payoff (terminal_price S0 r sigma T z) K)
                 (team_draws draw env N));
     sum_sq_payoffs :=
       Rsum (map (fun z => (call_payoff (terminal_price S0 r sigma T z) K) ^ 2)
                 (team_draws draw env N));
     sum_ST := Rsum (map (terminal_price S0 r sigma T) (team_draws draw env N)) |}.
Proof.
  rewrite reduction_exact. unfold team_sums, team_draws.
  rewrite !map_map, !Rsum_map_concat.
  f_equal; f_equal; apply map_ext; intros t;
    rewrite thread_sums_exact; reflexivity.
Qed.

(** The result of the engine on the totals of the reduction. *)
Lemma pricer_exact (draw : Z -> nat -> R) (env : omp_env)
      (S0 K r sigma T : R) (N : Z) :
  let totals := reduction (team_sums draw env S0 K r sigma T N) in
  monte_carlo_pricer draw env S0 K r sigma T N =
  {| price := sum_payoffs totals / IZR N * exp (- r * T);
     std_error :=
       sqrt (sum_sq_payoffs totals / IZR N - (sum_payoffs totals / IZR N) ^ 2)
       / sqrt (IZR N) * exp (- r * T);
     avg_final_price := sum_ST totals / IZR N |}.
Proof.
  intros totals. unfold monte_carlo_pricer. fold totals.
  unfold statistics, discount_factor_of.
  cbn [fadd fsub fmul fdiv fneg fsqrt fexp of_int Exact.arith].
  f_equal. do 3 f_equal. ring.
Qed.

(** Sums of squares. *)
Lemma Rsum_sq_nonneg (f : R -> R) (l : list R) :
  0 <= Rsum (map (fun x => f x ^ 2) l).
Proof.
  induction l as [|x l IH]; cbn [map].
  - rewrite Rsum_nil. lra.
  - rewrite Rsum_cons. pose proof (pow2_ge_0 (f x)). lra.
Qed.

Lemma Rsum_sq_dev (m : R) (l : list R) :
  Rsum (map (fun x => (x - m) ^ 2) l) =
  Rsum (map (fun x => x ^ 2) l) - 2 * m * Rsum l + INR (length l) * m ^ 2.
Proof.
  induction l as [|x l IH].
  - cbn [map length INR]. rewrite !Rsum_nil. ring.
  - cbn [map length]. rewrite !Rsum_cons, IH, S_INR. ring.
Qed.

(** The plug-in variance of a non-empty sample is not negative. *)
Lemma plug_in_variance_nonneg (l : list R) (n : R) :
  n = INR (length l) -> 0 < n ->
  0 <= Rsum (map (fun x => x ^ 2) l) / n - (Rsum l / n) ^ 2.
Proof.
  intros Hn Hpos.
  pose proof (Rsum_sq_nonneg (fun x => x - Rsum l / n) l) as Hdev.
  cbn beta in Hdev. rewrite Rsum_sq_dev, <- Hn in Hdev.
  replace (Rsum (map (fun x => x ^ 2) l) / n - (Rsum l / n) ^ 2)
    with ((Rsum (map (fun x => x ^ 2) l) - 2 * (Rsum l / n) * Rsum l
           + n * (Rsum l / n) ^ 2) / n)
    by (field; lra).
  apply Rle_mult_inv_pos; assumption.
Qed.

Lemma Rsum_const (c : R) (f : R -> R) (l : list R) :
  (forall z, f z = c) -> Rsum (map f l) = INR (length l) * c.
Proof.
  intros Hf. induction l as [|x l IH].
  - cbn [map length INR]. rewrite Rsum_nil. ring.
  - cbn [map length]. rewrite Rsum_cons, IH, Hf, S_INR. ring.
Qed.

Lemma trip_count_INR (N : Z) : (0 < N)%Z -> INR (trip_count N) = IZR N.
Proof.
  intros HN. unfold trip_count.
  rewrite INR_IZR_INZ, Z2Nat.id by lia. reflexivity.
Qed.

End ExactFacts.

(** ** Facts of binary64 arithmetic *)

Module Binary64Facts.

Import Binary64.

(** A NaN operand makes a NaN product. *)
Lemma nan_mul (x : float) : (nan * x)%float = nan.
Proof.
  apply Prim2SF_inj. rewrite FloatAxioms.mul_spec. reflexivity.
Qed.

(** With no iteration to share, every thread's share is empty. *)
Lemma static_share_0 (nt t : nat) : static_share 0 nt t = 0%nat.
Proof.
  unfold static_share.
  rewrite Nat.Div0.div_0_l, Nat.Div0.mod_0_l. reflexivity.
Qed.

(** Adding private sums that are all zero leaves zero. *)
Lemma reduction_zeros (m : libm) (l : list nat) :
  fold_left (sums_add (A := arith m))
            (map (fun _ => sums_0 (A := arith m)) l) (sums_0 (A := arith m)) =
  sums_0 (A := arith m).
Proof.
  induction l as [|t l IH]; [reflexivity|].
  cbn [map fold_left].
  replace (sums_add (A := arith m) sums_0 sums_0)
    with (sums_0 (A := arith m)) by reflexivity.
  exact IH.
Qed.

Lemma team_sums_0 (m : libm) (draw : Z -> nat -> float) (env : omp_env)
      (S0 K r sigma T : float) :
  team_sums (A := arith m) draw env S0 K r sigma T 0 =
  map (fun _ => sums_0 (A := arith m)) (seq 0 (Pos.to_nat (num_threads env))).
Proof.
  unfold team_sums. apply map_ext. intros t.
  unfold thread_share. cbn [trip_count Z.to_nat].
  rewrite static_share_0. reflexivity.
Qed.

(** A finite variate times a zero volatility adds nothing to the drift. *)
Lemma zero_plus_zero_times (z : float) :
  is_finite64 z = true -> (0 + 0 * z)%float = 0%float.
Proof.
  unfold is_finite64. intros Hz.
  apply Prim2SF_inj. rewrite FloatAxioms.add_spec, FloatAxioms.mul_spec.
  destruct (Prim2SF z) as [s|s| |s mz ez]; try discriminate.
  - destruct s; reflexivity.
  - destruct s; reflexivity.
Qed.

(** A trial with spot 0.1, strike 0, rate 0, volatility 0 and maturity 1:
    the terminal price and the payoff are 0.1, whatever the variate. *)
Lemma trial_zero_vol (m : libm) (acc : Sums float) (z : float) :
  exp64 m 0%float = 1%float -> is_finite64 z = true ->
  trial (A := arith m) 0.1%float 0%float
        (drift_of (A := arith m) 0%float 0%float 1%float)
        (vol_sqrt_T_of (A := arith m) 0%float 1%float) acc z
  = {| sum_payoffs := (sum_payoffs acc + 0.1)%float;
       sum_sq_payoffs := (sum_sq_payoffs acc + 0.1 * 0.1)%float;
       sum_ST := (sum_ST acc + 0.1)%float |}.
Proof.
  intros Hexp Hz. unfold trial, drift_of, vol_sqrt_T_of, std_max.
  cbn [fadd fsub fmul fsqrt fexp fltb lit_0 lit_0_5 arith].
  replace ((0 - 0.5 * 0 * 0) * 1)%float with 0%float by reflexivity.
  replace (0 * PrimFloat.sqrt 1)%float with 0%float by reflexivity.
  rewrite zero_plus_zero_times by assumption.
  rewrite Hexp. reflexivity.
Qed.

(** Rounding in the sums: three such trials on one thread, with any libm
    that has [exp(0) = 1] and any random source, return the average terminal
    price 0.10000000000000002; the plug-in variance comes out negative
    (-1.7e-18) and the standard error is NaN. *)
Lemma zero_volatility_on_double (m : libm) (draw : Z -> nat -> float) :
  exp64 m 0%float = 1%float ->
  (forall seed k, is_finite64 (draw seed k) = true) ->
  let res := monte_carlo_pricer (A := arith m) draw env_single
                                0.1%float 0%float 0%float 0%float 1%float 3 in
  avg_final_price res = 0.10000000000000002%float /\ std_error res = nan.
Proof.
  intros Hexp Hfin res. subst res.
  unfold monte_carlo_pricer, team_sums.
  change (Pos.to_nat (num_threads env_single)) with 1%nat.
  cbn [seq map].
  change (thread_share env_single 3 0) with 3%nat.
  rewrite !thread_sums_S.
  rewrite !trial_zero_vol by auto.
  unfold statistics.
  split; [reflexivity|].
  cbn [std_error reduction fold_left sums_add thread_sums thread_draws seq map
       sums_0 sum_payoffs sum_sq_payoffs sum_ST
       fadd fsub fmul fdiv fsqrt of_int lit_0 arith].
  match goal with
  | |- (?a * ?b)%float = nan =>
      replace a with nan by (vm_compute; reflexivity)
  end.
  apply nan_mul.
Qed.

End Binary64Facts.

(** ** The engine: sampling and statistics *)

(** C1. In every invocation of the engine, every trial (rank [k] in the
    share of thread [t]) takes its standard-normal variate [Z], computes the
    terminal price [S_T = S0 * exp((r - 0.5 sigma^2) T + sigma sqrt(T) Z)]
    and the call payoff [max(S_T - K, 0)], and adds exactly [payoff],
    [payoff^2] and [S_T] to the private sums of its thread. The sums a
    thread hands to the reduction are those after the last trial of its
    share, the trials of the team are the trials of the loop, the totals
    hold the payoff, its square and the terminal price of each of them, and
    the result is computed from these totals. *)
Theorem trial_accumulates_payoff
        (draw : Z -> nat -> R) (env : omp_env) (S0 K r sigma T : R) (N : Z) :
  let S_T := Spec.terminal_price S0 r sigma T in
  let payoff := fun z => Spec.call_payoff (S_T z) K in
  let sums := thread_sums (A := Exact.arith) draw env S0 K r sigma T in
  let privates := team_sums (A := Exact.arith) draw env S0 K r sigma T N in
  let draws := team_draws draw env N in
  (forall t k : nat,
      (t < Pos.to_nat (num_threads env))%nat ->
      (k < thread_share env N t)%nat ->
      let Z := draw (thread_seed env t) k in
      sums t (S k) =
      {| sum_payoffs := (sum_payoffs (sums t k) + payoff Z)%R;
         sum_sq_payoffs := (sum_sq_payoffs (sums t k) + payoff Z ^ 2)%R;
         sum_ST := (sum_ST (sums t k) + S_T Z)%R |}) /\
  (forall t : nat,
      (t < Pos.to_nat (num_threads env))%nat ->
      nth t privates (sums_0 (A := Exact.arith))
      = sums t (thread_share env N t)) /\
  length privates = Pos.to_nat (num_threads env) /\
  length draws = trip_count N /\
  reduction (A := Exact.arith) privates =
  {| sum_payoffs := Spec.Rsum (map payoff draws);
     sum_sq_payoffs := Spec.Rsum (map (fun z => (payoff z ^ 2)%R) draws);
     sum_ST := Spec.Rsum (map S_T draws) |} /\
  monte_carlo_pricer (A := Exact.arith) draw env S0 K r sigma T N
  = statistics (A := Exact.arith)
               (reduction (A := Exact.arith) privates) (exp (- r * T)) N.
Proof.
  intros S_T payoff sums privates draws.
  split; [|split; [|split; [|split; [|split]]]].
  - intros t k _ _ Z. subst sums. cbn beta.
    rewrite thread_sums_S. apply ExactFacts.trial_exact.
  - intros t Ht. subst privates sums. unfold team_sums.
    rewrite (nth_indep _ (sums_0 (A := Exact.arith))
               (thread_sums (A := Exact.arith) draw env S0 K r sigma T 0
                            (thread_share env N 0)))
      by now rewrite length_map, length_seq.
    rewrite (map_nth (fun t => thread_sums (A := Exact.arith)
                                           draw env S0 K r sigma T t
                                           (thread_share env N t))).
    rewrite seq_nth by assumption. reflexivity.
  - subst privates. unfold team_sums. now rewrite length_map, length_seq.
  - apply team_draws_length.
  - apply ExactFacts.team_totals_exact.
  - reflexivity.
Qed.

(** C2. The engine adds the private sums of the threads into the totals
    [sumPayoff], [sumPayoffSquared] and [sumTerminalPrice], and returns
    [price = (sumPayoff / N) exp(-r T)],
    [standardError = sqrt(sumPayoffSquared / N - (sumPayoff / N)^2) / sqrt(N) * exp(-r T)]
    (the plug-in variance) and [averageTerminalPrice = sumTerminalPrice / N].
    The equation needs no assumption on [N]; the claim is its case [N > 0]. *)
Theorem statistics_of_totals
        (draw : Z -> nat -> R) (env : omp_env) (S0 K r sigma T : R) (N : Z) :
  let privates := team_sums (A := Exact.arith) draw env S0 K r sigma T N in
  let sumPayoff := Spec.Rsum (map sum_payoffs privates) in
  let sumPayoffSquared := Spec.Rsum (map sum_sq_payoffs privates) in
  let sumTerminalPrice := Spec.Rsum (map sum_ST privates) in
  monte_carlo_pricer (A := Exact.arith) draw env S0 K r sigma T N =
  {| price := (sumPayoff / IZR N * exp (- r * T))%R;
     std_error :=
       (sqrt (sumPayoffSquared / IZR N - (sumPayoff / IZR N) ^ 2)
        / sqrt (IZR N) * exp (- r * T))%R;
     avg_final_price := (sumTerminalPrice / IZR N)%R |}.
Proof.
  intros privates sumPayoff sumPayoffSquared sumTerminalPrice.
  rewrite ExactFacts.pricer_exact. fold privates.
  rewrite ExactFacts.reduction_exact.
  reflexivity.
Qed.

(** C10. In exact arithmetic, for every [N > 0] and whatever the samples,
    the plug-in variance [sumPayoffSquared / N - (sumPayoff / N)^2] of the
    reduction stage is not negative, so the square root of the standard
    error is taken of a non-negative number and the standard error returned
    is not negative. *)
Theorem plug_in_variance_not_negative
        (draw : Z -> nat -> R) (env : omp_env) (S0 K r sigma T : R) (N : Z) :
  (0 < N)%Z ->
  let totals :=
    reduction (A := Exact.arith)
              (team_sums (A := Exact.arith) draw env S0 K r sigma T N) in
  let variance :=
    (sum_sq_payoffs totals / IZR N - (sum_payoffs totals / IZR N) ^ 2)%R in
  (0 <= variance)%R /\
  std_error (monte_carlo_pricer (A := Exact.arith) draw env S0 K r sigma T N)
  = (sqrt variance / sqrt (IZR N) * exp (- r * T))%R /\
  (0 <= std_error
          (monte_carlo_pricer (A := Exact.arith) draw env S0 K r sigma T N))%R.
Proof.
  intros HN totals variance.
  assert (Hvar : (0 <= variance)%R).
  { subst variance totals. rewrite ExactFacts.team_totals_exact.
    cbn [sum_payoffs sum_sq_payoffs].
    rewrite <- (map_map (fun z => Spec.call_payoff
                                    (Spec.terminal_price S0 r sigma T z) K)
                        (fun x => (x ^ 2)%R)).
    apply ExactFacts.plug_in_variance_nonneg.
    - rewrite length_map, team_draws_length.
      symmetry. now apply ExactFacts.trip_count_INR.
    - now apply IZR_lt. }
  assert (Hse : std_error
                  (monte_carlo_pricer (A := Exact.arith) draw env S0 K r sigma T N)
                = (sqrt variance / sqrt (IZR N) * exp (- r * T))%R).
  { rewrite ExactFacts.pricer_exact. reflexivity. }
  repeat split; [exact Hvar | exact Hse |].
  rewrite Hse.
  apply Rmult_le_pos.
  - apply Rle_mult_inv_pos.
    + apply sqrt_pos.
    + apply sqrt_lt_R0. now apply IZR_lt.
  - left. apply exp_pos.
Qed.

Lemma plug_in_variance_not_negative_witness :
  (0 < 10)%Z /\
  (0 <= std_error
          (monte_carlo_pricer (A := Exact.arith) Exact.pattern_draw env_quad
                              100 100 0.05 0.2 1 10))%R.
Proof.
  split; [lia|].
  apply (plug_in_variance_not_negative
           Exact.pattern_draw env_quad 100 100 0.05 0.2 1 10).
  lia.
Defined.

(** C7, as the code has it. For a valid parameter set (spot and maturity
    positive) with [volatility = 0] and [N > 0] the run follows the normal
    path and every trial adds the same terminal price
    [spot * exp(riskFreeRate * maturity)] to [sum_ST]; in exact arithmetic
    the average terminal price returned is that value.
    On [double] the sum and the division round. *)
Theorem zero_volatility_average_exact
        (draw : Z -> nat -> R) (env : omp_env) (S0 K r T : R) (N : Z) :
  (0 < S0)%R -> (0 < T)%R -> (0 < N)%Z ->
  (forall (acc : Sums R) (z : R),
      sum_ST (trial (A := Exact.arith) S0 K
                    (drift_of (A := Exact.arith) r 0%R T)
                    (vol_sqrt_T_of (A := Exact.arith) 0%R T) acc z)
      = (sum_ST acc + S0 * exp (r * T))%R) /\
  avg_final_price
    (monte_carlo_pricer (A := Exact.arith) draw env S0 K r 0%R T N)
  = (S0 * exp (r * T))%R.
Proof.
  intros _ _ HN.
  assert (Hconst : forall z, Spec.terminal_price S0 r 0 T z = (S0 * exp (r * T))%R).
  { intros z. unfold Spec.terminal_price. do 2 f_equal. ring. }
  split.
  - intros acc z. rewrite ExactFacts.trial_exact. cbn [sum_ST].
    now rewrite Hconst.
  - unfold monte_carlo_pricer, statistics. cbn [avg_final_price].
    rewrite ExactFacts.team_totals_exact. cbn [sum_ST].
    rewrite (ExactFacts.Rsum_const (S0 * exp (r * T))%R) by exact Hconst.
    rewrite team_draws_length, ExactFacts.trip_count_INR by assumption.
    cbn [fdiv of_int Exact.arith].
    field. apply not_0_IZR. lia.
Qed.

Lemma zero_volatility_average_exact_witness :
  (0 < 0.1)%R /\ (0 < 1)%R /\ (0 < 3)%Z /\
  avg_final_price
    (monte_carlo_pricer (A := Exact.arith) Exact.pattern_draw env_single
                        0.1%R 100%R 0%R 0%R 1%R 3)
  = (0.1 * exp (0 * 1))%R.
Proof.
  assert (HS : (0 < 0.1)%R) by lra.
  assert (HT : (0 < 1)%R) by lra.
  assert (HN : (0 < 3)%Z) by lia.
  split; [exact HS|]. split; [exact HT|]. split; [exact HN|].
  apply (zero_volatility_average_exact
           Exact.pattern_draw env_single 0.1%R 100%R 0%R 1%R 3 HS HT HN).
Defined.

(** C7 fails on [double]: with spot 0.1, strike 0, rate 0, volatility 0,
    maturity 1 and three trials on one thread, every trial has the terminal price
    [0.1 * exp(0) = 0.1], the sum of the three rounds to
    0.30000000000000004 and the average returned is 0.10000000000000002,
    not [spot * exp(riskFreeRate * maturity) = 0.1]. *)
Lemma zero_volatility_average_rounds :
  avg_final_price
    (monte_carlo_pricer (A := Binary64.arith Binary64.series_libm)
                        Binary64.pattern_draw env_single
                        0.1%float 0%float 0%float 0%float 1%float 3)
  = 0.10000000000000002%float /\
  (0.1 * Binary64.exp_series (0 * 1))%float = 0.1%float /\
  (0.10000000000000002 =? 0.1)%float = false.
Proof. split; [|split]; vm_compute; reflexivity. Qed.

(** ** The engine: parameters *)

(** C3 fails at [sampleCount = 0]: the engine rejects nothing, runs the
    statistics on empty sums and returns three NaN ([0.0 / 0]). *)
Lemma zero_samples_not_rejected :
  monte_carlo_pricer (A := Binary64.arith Binary64.series_libm)
                     Binary64.pattern_draw env_quad
                     100%float 100%float 0.05%float 0.2%float 1%float 0
  = {| price := nan; std_error := nan; avg_final_price := nan |}.
Proof. vm_compute. reflexivity. Qed.

(** C3, as the code has it. The engine has no validation and no way to
    signal: it is a total function to [SimulationResult]. Called with
    [sampleCount = 0] it samples nothing and returns NaN for the price, the
    standard error and the average terminal price, whatever the other
    parameters, the team, the random source and libm. *)
Theorem zero_samples_returns_nan
        (m : Binary64.libm) (draw : Z -> nat -> float) (env : omp_env)
        (S0 K r sigma T : float) :
  trials_run env 0 = 0%nat /\
  monte_carlo_pricer (A := Binary64.arith m) draw env S0 K r sigma T 0
  = {| price := nan; std_error := nan; avg_final_price := nan |}.
Proof.
  split; [apply trials_run_trip_count|].
  unfold monte_carlo_pricer, reduction.
  rewrite Binary64Facts.team_sums_0, Binary64Facts.reduction_zeros.
  unfold statistics.
  cbn [sums_0 sum_payoffs sum_sq_payoffs sum_ST
       lit_0 fadd fsub fmul fdiv fsqrt of_int Binary64.arith].
  replace (Binary64.of_int64 0) with 0%float by reflexivity.
  replace (0 / 0)%float with nan by reflexivity.
  replace (PrimFloat.sqrt (nan - nan * nan) / PrimFloat.sqrt 0)%float
    with nan by reflexivity.
  rewrite !Binary64Facts.nan_mul. reflexivity.
Qed.

(** C8 fails above [INT_MAX]: three billion is not a value of the [int]
    parameter [N]; converted to [int] it is negative and the loop samples
    nothing. *)
Lemma three_billion_not_an_int :
  ~ int_representable 3000000000 /\
  int_wrap 3000000000 = (-1294967296)%Z /\
  trials_run env_quad (int_wrap 3000000000) = 0%nat.
Proof.
  split; [|split].
  - unfold int_representable, INT_MAX. lia.
  - vm_compute. reflexivity.
  - vm_compute. reflexivity.
Qed.

(** C8, as the code has it. The sample count is an [int]: every [N] with
    [0 < N <= INT_MAX = 2147483647] is a value of the parameter, and the run
    samples all [N] trials: in the parallel region each thread runs the
    trials of its share on its own variates, the shares add up to [N], and
    the result is computed from the sums of these threads. *)
Theorem sample_count_within_int
        (F : Type) (A : Arith F) (draw : Z -> nat -> F) (env : omp_env)
        (S0 K r sigma T : F) (N : Z) :
  (0 < N <= INT_MAX)%Z ->
  int_representable N /\ int_wrap N = N /\
  Z.of_nat (trials_run env N) = N /\
  Z.of_nat (length (team_draws draw env N)) = N /\
  team_sums draw env S0 K r sigma T N
  = map (fun t =>
           fold_left (trial S0 K (drift_of r sigma T) (vol_sqrt_T_of sigma T))
                     (thread_draws draw env t (thread_share env N t)) sums_0)
        (seq 0 (Pos.to_nat (num_threads env))) /\
  Z.of_nat
    (list_sum (map (fun t => length (thread_draws draw env t
                                                  (thread_share env N t)))
                   (seq 0 (Pos.to_nat (num_threads env))))) = N /\
  monte_carlo_pricer draw env S0 K r sigma T N
  = statistics (reduction (team_sums draw env S0 K r sigma T N))
               (discount_factor_of r T) N.
Proof.
  intros HN. unfold INT_MAX in HN.
  split; [|split; [|split; [|split; [|split; [|split]]]]].
  - unfold int_representable, INT_MIN, INT_MAX. lia.
  - unfold int_wrap. rewrite Z.mod_small; lia.
  - rewrite trials_run_trip_count. unfold trip_count. lia.
  - rewrite team_draws_length. unfold trip_count. lia.
  - reflexivity.
  - rewrite (map_ext _ (thread_share env N))
      by (intros t; apply thread_draws_length).
    fold (trials_run env N).
    rewrite trials_run_trip_count. unfold trip_count. lia.
  - reflexivity.
Qed.

Lemma sample_count_within_int_witness :
  (0 < 1000000000 <= INT_MAX)%Z /\
  Z.of_nat
    (list_sum
       (map (fun t => length (thread_draws Binary64.pattern_draw env_quad t
                                           (thread_share env_quad 1000000000 t)))
            (seq 0 (Pos.to_nat (num_threads env_quad))))) = 1000000000%Z.
Proof.
  assert (H : (0 < 1000000000 <= INT_MAX)%Z) by (unfold INT_MAX; lia).
  split; [exact H|].
  exact (proj1 (proj2 (proj2 (proj2 (proj2 (proj2
           (sample_count_within_int
              float (Binary64.arith Binary64.series_libm)
              Binary64.pattern_draw env_quad
              100%float 100%float 0.05%float 0.2%float 1%float
              1000000000 H))))))).
Defined.

(** C9 on the code: the seed of a thread is its own reading of the clock
    plus its index, cut to 32 bits. When thread 1 reads the clock one tick
    before thread 0 the two seeds are equal, and the two threads draw the
    same variates, whatever the generator. *)
Theorem seeds_collide_one_tick_apart
        (F : Type) (draw : Z -> nat -> F) (k : nat) :
  thread_seed env_race 0 = thread_seed env_race 1 /\
  thread_draws draw env_race 0 k = thread_draws draw env_race 1 k.
Proof.
  assert (Hseed : thread_seed env_race 0 = thread_seed env_race 1)
    by (vm_compute; reflexivity).
  split; [exact Hseed|].
  unfold thread_draws. now rewrite Hseed.
Qed.

(** ** The volatility estimator *)

(** C4 on the code: on [[100; 100]] the single log-return is [log(1) = 0],
    the sum of squared deviations is 0 and the divisor [count - 1] is 0: the
    estimator returns [sqrt(0.0 / 0) * sqrt(252.0)], a NaN, not 0. *)
Theorem two_equal_prices_give_nan (m : Binary64.libm) :
  Binary64.log64 m 1%float = 0%float ->
  calculate_historical_volatility (A := Binary64.arith m)
                                  [100%float; 100%float] = nan.
Proof.
  intros Hlog.
  cbv [calculate_historical_volatility returns_loop returns_step sq_dev_loop
       length Nat.ltb Nat.leb Nat.sub seq fold_left nth fst snd app
       Binary64.arith flog fdiv fadd fsub fmul fsqrt of_int lit_0 lit_252].
  replace (100 / 100)%float with 1%float by reflexivity.
  rewrite Hlog. vm_compute. reflexivity.
Qed.

Lemma two_equal_prices_give_nan_witness :
  Binary64.log64 Binary64.series_libm 1%float = 0%float /\
  calculate_historical_volatility (A := Binary64.arith Binary64.series_libm)
                                  [100%float; 100%float] = nan.
Proof.
  split; [vm_compute; reflexivity|].
  apply (two_equal_prices_give_nan Binary64.series_libm).
  vm_compute. reflexivity.
Defined.

(** C5. On fewer than two prices, none or one, the estimator returns the
    fallback 0.20; it is a total function and fails on no input. *)
Theorem short_history_fallback (m : Binary64.libm) (prices : list float) :
  (length prices < 2)%nat ->
  calculate_historical_volatility (A := Binary64.arith m) prices = 0.20%float.
Proof.
  intros Hlen. unfold calculate_historical_volatility.
  destruct (Nat.ltb_spec (length prices) 2) as [_|Hge]; [reflexivity|lia].
Qed.

Lemma short_history_fallback_witness :
  (length [100%float] < 2)%nat /\
  calculate_historical_volatility (A := Binary64.arith Binary64.series_libm)
                                  [100%float] = 0.20%float.
Proof.
  split; [cbn; lia|].
  apply (short_history_fallback Binary64.series_libm [100%float]).
  cbn. lia.
Defined.

(** C6. On [n >= 2] prices the estimator returns
    [sqrt(sum (u_i - mu)^2 / (m - 1)) * sqrt(252)], with
    [u_i = ln(P_i / P_{i-1})] the [m = n - 1] log-returns and [mu] their
    mean. It holds in any arithmetic, binary64 and the reals among them, and
    whatever the sign of the prices; a [size_t] counts the prices. *)
Theorem volatility_is_annualized_deviation
        (F : Type) (A : Arith F) (prices : list F) :
  (2 <= length prices)%nat ->
  (Z.of_nat (length prices) < 2 ^ 64)%Z ->
  length (Spec.log_returns_of prices) = (length prices - 1)%nat /\
  calculate_historical_volatility prices = Spec.annualized_volatility prices.
Proof.
  intros Hlen Hsize.
  split; [apply log_returns_length|].
  unfold calculate_historical_volatility.
  destruct (Nat.ltb_spec (length prices) 2) as [Hlt|_]; [lia|].
  rewrite returns_loop_spec.
  unfold sq_dev_loop. rewrite sq_dev_fold_spec.
  unfold Spec.annualized_volatility, Spec.sample_variance, Spec.sample_mean,
    Spec.total.
  rewrite log_returns_length.
  unfold size_t_wrap. rewrite Z.mod_small by lia.
  reflexivity.
Qed.

Lemma volatility_is_annualized_deviation_witness :
  (2 <= length [100%float; 101%float; 100%float])%nat /\
  calculate_historical_volatility (A := Binary64.arith Binary64.series_libm)
                                  [100%float; 101%float; 100%float]
  = Spec.annualized_volatility (A := Binary64.arith Binary64.series_libm)
                               [100%float; 101%float; 100%float].
Proof.
  split; [cbn; lia|].
  apply (volatility_is_annualized_deviation
           float (Binary64.arith Binary64.series_libm)
           [100%float; 101%float; 100%float]).
  - cbn. lia.
  - cbn. lia.
Defined.

(** ** Facts about the data reader *)

Module CsvFacts.

Import Ascii String Csv.
Local Open Scope string_scope.

Lemma split_on_not_nil (d : ascii) (s : string) : split_on d s <> [].
Proof.
  destruct s as [|c s']; cbn; [discriminate|].
  destruct (Ascii.eqb c d); [discriminate|].
  destruct (split_on d s'); discriminate.
Qed.

(** What one call of [getline] reads, in terms of the fields. *)
Lemma extract_until_found (d : ascii) (s field rest : string) :
  extract_until d s = (field, Some rest) ->
  split_on d s = field :: split_on d rest /\ (length rest < length s)%nat.
Proof.
  revert field rest.
  induction s as [|c s' IH]; intros field rest H; cbn in H; [discriminate|].
  cbn [split_on length].
  destruct (Ascii.eqb c d).
  - injection H as <- <-. split; [reflexivity|lia].
  - destruct (extract_until d s') as [f [r|]] eqn:E; [|discriminate].
    injection H as <- <-.
    destruct (IH f r eq_refl) as [Hs Hl].
    rewrite Hs. split; [reflexivity|lia].
Qed.

Lemma extract_until_end (d : ascii) (s field : string) :
  extract_until d s = (field, None) -> split_on d s = [field].
Proof.
  revert field.
  induction s as [|c s' IH]; intros field H; cbn in H.
  - injection H as <-. reflexivity.
  - cbn [split_on].
    destruct (Ascii.eqb c d); [discriminate|].
    destruct (extract_until d s') as [f [r|]] eqn:E; [discriminate|].
    injection H as <-.
    rewrite (IH f eq_refl). reflexivity.
Qed.

Lemma last_cons_not_nil {X : Type} (x : X) (l : list X) (dflt : X) :
  l <> [] -> List.last (x :: l) dflt = List.last l dflt.
Proof. destruct l; [congruence|reflexivity]. Qed.

(** The inner loop, from a fresh stream: whatever [value_str] holds, with
    fuel enough the loop leaves the last field in it. *)
Lemma last_field_loop_spec (fuel : nat) :
  forall (s value_str : string),
    (length s + 2 <= fuel)%nat ->
    last_field_loop fuel (stream_of s) value_str
    = List.last (split_on comma s) EmptyString.
Proof.
  induction fuel as [|fuel IH]; intros s v Hfuel; [lia|].
  cbn [last_field_loop]. unfold getline.
  cbn [good stream_of eofbit failbit buffer negb andb].
  destruct (extract_until comma s) as [field [rest|]] eqn:E.
  - apply extract_until_found in E as [Hs Hl].
    cbn [failbit]. fold (stream_of rest).
    rewrite IH by lia. rewrite Hs.
    symmetry. apply last_cons_not_nil, split_on_not_nil.
  - apply extract_until_end in E. rewrite E. cbn [failbit List.last].
    destruct field as [|c field']; cbn [is_empty]; [reflexivity|].
    destruct fuel as [|fuel']; [lia|].
    reflexivity.
Qed.

(** The lines of a file, one call of [getline] at a time. *)
Lemma file_lines_found (s line rest : string) :
  extract_until newline s = (line, Some rest) ->
  file_lines s = line :: file_lines rest /\ (length rest < length s)%nat.
Proof.
  intros E. apply extract_until_found in E as [Hs Hl].
  split; [|exact Hl].
  unfold file_lines. rewrite Hs.
  rewrite (last_cons_not_nil _ _ _ (split_on_not_nil newline rest)).
  destruct (is_empty (List.last (split_on newline rest) EmptyString));
    [|reflexivity].
  cbn [List.removelast].
  destruct (split_on newline rest) eqn:El; [|reflexivity].
  now apply split_on_not_nil in El.
Qed.

Lemma file_lines_end (s line : string) :
  extract_until newline s = (line, None) ->
  file_lines s = if is_empty line then [] else [line].
Proof.
  intros E. apply extract_until_end in E.
  unfold file_lines. rewrite E. cbn [List.last List.removelast].
  reflexivity.
Qed.

Section Reader.

Context {F : Type}.
Variable stod : string -> option F.

Lemma push_back_spec (prices : list F) (line : string) :
  push_back prices (line_price stod line)
  = (prices ++ prices_of_lines stod [line])%list.
Proof.
  unfold prices_of_lines, push_back. cbn [List.flat_map].
  destruct (line_price stod line); cbn; now rewrite ?app_nil_r.
Qed.

Lemma prices_of_lines_cons (line : string) (lines : list string) :
  prices_of_lines stod (line :: lines)
  = (prices_of_lines stod [line] ++ prices_of_lines stod lines)%list.
Proof.
  unfold prices_of_lines. cbn [List.flat_map]. now rewrite app_nil_r.
Qed.

(** The outer loop, from a fresh stream: with fuel enough it appends the
    prices of all the lines. *)
Lemma read_loop_spec (fuel : nat) :
  forall (s line : string) (prices : list F),
    (length s + 2 <= fuel)%nat ->
    read_loop stod fuel (stream_of s) line prices
    = (prices ++ prices_of_lines stod (file_lines s))%list.
Proof.
  induction fuel as [|fuel IH]; intros s line prices Hfuel; [lia|].
  cbn [read_loop]. unfold getline.
  cbn [good stream_of eofbit failbit buffer negb andb].
  destruct (extract_until newline s) as [l [rest|]] eqn:E.
  - apply file_lines_found in E as [Hs Hl].
    cbn [failbit]. fold (stream_of rest).
    rewrite IH by lia. rewrite Hs, push_back_spec.
    rewrite (prices_of_lines_cons l (file_lines rest)). now rewrite app_assoc.
  - apply file_lines_end in E. rewrite E. cbn [failbit].
    destruct l as [|c l']; cbn [is_empty].
    + cbn. now rewrite app_nil_r.
    + destruct fuel as [|fuel']; [lia|].
      cbn [read_loop getline good eofbit failbit negb andb].
      apply push_back_spec.
Qed.

End Reader.

(** *** Fields and lines *)

Lemma append_assoc (a b c : string) : (a ++ b) ++ c = a ++ (b ++ c).
Proof. induction a as [|x a IH]; cbn; [reflexivity|now rewrite IH]. Qed.

Lemma append_nil_r (a : string) : a ++ EmptyString = a.
Proof. induction a as [|x a IH]; cbn; [reflexivity|now rewrite IH]. Qed.

Lemma last_app_not_nil {X : Type} (l1 l2 : list X) (dflt : X) :
  l2 <> [] -> List.last (l1 ++ l2)%list dflt = List.last l2 dflt.
Proof.
  intros H2. induction l1 as [|x l1 IH]; [reflexivity|].
  cbn [List.app]. rewrite last_cons_not_nil; [exact IH|].
  destruct l1; cbn; [exact H2|discriminate].
Qed.

(** The fields of a text with a delimiter in the middle. *)
Lemma split_on_app (d : ascii) (pre post : string) :
  split_on d (pre ++ String d post) = (split_on d pre ++ split_on d post)%list.
Proof.
  induction pre as [|c pre IH]; cbn [append split_on].
  - now rewrite Ascii.eqb_refl.
  - destruct (Ascii.eqb c d); rewrite IH; [reflexivity|].
    destruct (split_on d pre) as [|f fs] eqn:E; [|reflexivity].
    now apply split_on_not_nil in E.
Qed.

(** A text without the delimiter is one field. *)
Lemma split_on_whole (d : ascii) (s : string) :
  occurs d s = false -> split_on d s = [s].
Proof.
  induction s as [|c s IH]; cbn [occurs split_on]; [reflexivity|].
  intros H. apply orb_false_iff in H as [Hc Hs].
  rewrite Hc, (IH Hs). reflexivity.
Qed.

Lemma extract_until_app (d : ascii) (a rest : string) :
  occurs d a = false ->
  extract_until d (a ++ String d rest) = (a, Some rest).
Proof.
  induction a as [|c a IH]; cbn [occurs append extract_until].
  - now rewrite Ascii.eqb_refl.
  - intros H. apply orb_false_iff in H as [Hc Ha].
    rewrite Hc, (IH Ha). reflexivity.
Qed.

Lemma occurs_app (d : ascii) (a b : string) :
  occurs d (a ++ b) = occurs d a || occurs d b.
Proof.
  induction a as [|c a IH]; cbn [append occurs]; [reflexivity|].
  now rewrite IH, orb_assoc.
Qed.

(** The fields put together again are the text. *)
Lemma join_split_on (d : ascii) (s : string) : join d (split_on d s) = s.
Proof.
  induction s as [|c s IH]; [reflexivity|].
  cbn [split_on]. destruct (Ascii.eqb_spec c d) as [->|Hcd].
  - destruct (split_on d s) as [|f fs] eqn:E;
      [now apply split_on_not_nil in E|].
    cbn [join append]. cbn [join] in IH. now rewrite IH.
  - destruct (split_on d s) as [|f fs] eqn:E;
      [now apply split_on_not_nil in E|].
    destruct fs as [|g gs]; cbn [join append] in *; now rewrite IH.
Qed.

(** The last field ends the text. *)
Lemma join_ends_with_last (d : ascii) (fields : list string) :
  fields <> [] ->
  exists pre, join d fields = pre ++ List.last fields EmptyString.
Proof.
  induction fields as [|f fs IH]; [congruence|]. intros _.
  destruct fs as [|g gs].
  - exists EmptyString. reflexivity.
  - destruct IH as [pre Hpre]; [discriminate|].
    exists (f ++ String d pre).
    change (join d (f :: g :: gs)) with (f ++ String d (join d (g :: gs))).
    rewrite Hpre, append_assoc. reflexivity.
Qed.

Lemma back_app (a b : string) :
  is_empty b = false -> back (a ++ b) = back b.
Proof.
  intros Hb. induction a as [|c a IH]; [reflexivity|].
  cbn [append back]. rewrite IH.
  destruct (a ++ b) eqn:E; [|reflexivity].
  destruct a, b; cbn in *; discriminate.
Qed.

(** A non-empty last field ends with the last character of the line. *)
Lemma back_last_field (line : string) :
  is_empty (last_field line) = false ->
  back (last_field line) = back line.
Proof.
  unfold last_field. rewrite last_field_loop_spec by lia.
  intros Hne.
  destruct (join_ends_with_last comma (split_on comma line)
                                (split_on_not_nil comma line)) as [pre Hpre].
  rewrite join_split_on in Hpre.
  rewrite Hpre at 2. symmetry. now apply back_app.
Qed.

(** A line that does not end with a digit gives no price. *)
Lemma line_price_no_digit {F : Type} (stod : string -> option F)
      (line : string) :
  isdigit (back line) = false -> line_price stod line = None.
Proof.
  intros Hback. unfold line_price.
  destruct (is_empty (last_field line)) eqn:E; [reflexivity|].
  rewrite (back_last_field line E), Hback. reflexivity.
Qed.

Lemma line_price_empty {F : Type} (stod : string -> option F) :
  line_price stod EmptyString = None.
Proof. reflexivity. Qed.

Lemma prices_of_lines_app {F : Type} (stod : string -> option F)
      (l1 l2 : list string) :
  prices_of_lines stod (l1 ++ l2)
  = (prices_of_lines stod l1 ++ prices_of_lines stod l2)%list.
Proof. unfold prices_of_lines. apply flat_map_app. Qed.

(** The lines of a file with DOS line ends keep their CR. *)
Lemma file_lines_crlf (lines : list string) :
  Forall (fun line => occurs newline line = false) lines ->
  file_lines (crlf_file lines)
  = List.map (fun line => line ++ String carriage_return EmptyString) lines.
Proof.
  induction 1 as [|line lines Hline _ IH]; [reflexivity|].
  cbn [crlf_file List.fold_right List.map].
  fold (crlf_file lines).
  change (String carriage_return (String newline (crlf_file lines)))
    with (String carriage_return EmptyString
          ++ String newline (crlf_file lines)).
  rewrite <- append_assoc.
  destruct (file_lines_found
              ((line ++ String carriage_return EmptyString)
               ++ String newline (crlf_file lines))
              (line ++ String carriage_return EmptyString)
              (crlf_file lines)) as [Hs _].
  - apply extract_until_app. rewrite occurs_app, Hline. reflexivity.
  - rewrite Hs, IH. reflexivity.
Qed.

(** Nothing is read from a file with DOS line ends. *)
Lemma read_crlf_nil {F : Type} (stod : string -> option F)
      (lines : list string) :
  Forall (fun line => occurs newline line = false) lines ->
  read_prices_from_csv stod (Some (crlf_file lines)) = [].
Proof.
  intros Hlines. unfold read_prices_from_csv.
  rewrite read_loop_spec by lia. cbn [List.app].
  rewrite (file_lines_crlf lines Hlines).
  clear Hlines. induction lines as [|line lines IH]; [reflexivity|].
  cbn [List.map]. rewrite prices_of_lines_cons, IH, List.app_nil_r.
  unfold prices_of_lines. cbn [List.flat_map].
  rewrite line_price_no_digit; [reflexivity|].
  rewrite back_app by reflexivity. reflexivity.
Qed.

End CsvFacts.

(** ** More facts of exact arithmetic *)

Module EngineFacts.

Import Spec ExactFacts.
#[local] Existing Instance Exact.arith.
Local Open Scope R_scope.

(** The result of a run from the variates of its trials. *)
Lemma pricer_sums (draw : Z -> nat -> R) (env : omp_env)
      (S0 K r sigma T : R) (N : Z) :
  let draws := team_draws draw env N in
  let payoff := fun z => call_payoff (terminal_price S0 r sigma T z) K in
  monte_carlo_pricer draw env S0 K r sigma T N =
  {| price := Rsum (map payoff draws) / IZR N * exp (- r * T);
     std_error :=
       sqrt (Rsum (map (fun z => payoff z ^ 2) draws) / IZR N
             - (Rsum (map payoff draws) / IZR N) ^ 2)
       / sqrt (IZR N) * exp (- r * T);
     avg_final_price := Rsum (map (terminal_price S0 r sigma T) draws) / IZR N |}.
Proof.
  intros draws payoff. rewrite pricer_exact, team_totals_exact. reflexivity.
Qed.


Lemma Rsum_map_eq (f g : R -> R) (l : list R) :
  Forall (fun z => f z = g z) l -> Rsum (map f l) = Rsum (map g l).
Proof.
  induction 1 as [|z l Hz _ IH]; cbn [map]; [reflexivity|].
  rewrite !Rsum_cons. congruence.
Qed.

Lemma Rsum_map_minus (f : R -> R) (K : R) (l : list R) :
  Rsum (map (fun z => f z - K) l) = Rsum (map f l) - INR (length l) * K.
Proof.
  induction l as [|z l IH].
  - cbn [map length INR]. rewrite !Rsum_nil. ring.
  - cbn [map length]. rewrite !Rsum_cons, IH, S_INR. ring.
Qed.

Lemma Rsum_map_scal (f : R -> R) (c : R) (l : list R) :
  Rsum (map (fun z => c * f z) l) = c * Rsum (map f l).
Proof.
  induction l as [|z l IH]; cbn [map].
  - rewrite !Rsum_nil. ring.
  - rewrite !Rsum_cons, IH. ring.
Qed.


Lemma Rsum_Permutation (l l' : list R) :
  Permutation l l' -> Rsum l = Rsum l'.
Proof.
  induction 1 as [|x l l' _ IH|x y l|l l' l'' _ IH1 _ IH2].
  - reflexivity.
  - rewrite !Rsum_cons. now rewrite IH.
  - rewrite !Rsum_cons. ring.
  - now rewrite IH1.
Qed.


Lemma team_draws_count (draw : Z -> nat -> R) (env : omp_env) (N : Z) :
  (0 < N)%Z -> INR (length (team_draws draw env N)) = IZR N.
Proof.
  intros HN. rewrite team_draws_length. now apply trip_count_INR.
Qed.


End EngineFacts.

Module EstimatorFacts.

#[local] Existing Instance Exact.arith.
Local Open Scope R_scope.

(** Log-returns are ratios: a common factor of the prices cancels. *)
Lemma log_returns_scaled (c : R) (prices : list R) :
  0 < c -> Forall (fun p => 0 < p) prices ->
  Spec.log_returns_of (map (Rmult c) prices) = Spec.log_returns_of prices.
Proof.
  intros Hc Hpos. induction Hpos as [|p0 rest Hp0 Hrest IH]; [reflexivity|].
  destruct rest as [|p1 rest']; [reflexivity|].
  cbn [map Spec.log_returns_of] in *. rewrite IH.
  f_equal. cbn [flog fdiv Exact.arith]. f_equal. field. lra.
Qed.

(** The log-returns of a history that grows at a constant rate. *)
Lemma log_returns_geometric (p0 g : R) (n : nat) :
  0 < p0 -> 0 < g ->
  forall a : nat,
    Spec.log_returns_of (map (fun i => p0 * g ^ i) (seq a n))
    = repeat (ln g) (n - 1).
Proof.
  intros Hp Hg. induction n as [|n IH]; intros a; [reflexivity|].
  destruct n as [|n']; [reflexivity|].
  specialize (IH (S a)).
  cbn [seq map Spec.log_returns_of] in *. rewrite IH.
  replace (S (S n') - 1)%nat with (S (S n' - 1)) by lia.
  cbn [repeat]. f_equal.
  cbn [flog fdiv Exact.arith]. f_equal.
  change (g ^ S a) with (g * g ^ a). field.
  split; [apply pow_nonzero|]; lra.
Qed.

Lemma fold_left_repeat (h : R -> R) (u : R) (m : nat) :
  forall acc : R,
    fold_left (fun a x => a + h x) (repeat u m) acc = acc + INR m * h u.
Proof.
  induction m as [|m IH]; intros acc.
  - cbn [repeat fold_left INR]. ring.
  - cbn [repeat fold_left]. rewrite IH, S_INR. ring.
Qed.

End EstimatorFacts.

Module ReversalFacts.

Import Spec ExactFacts.
#[local] Existing Instance Exact.arith.
Local Open Scope R_scope.

(** A left-to-right sum of reals is the sum of the list. *)
Lemma fold_left_Rsum (h : R -> R) (l : list R) :
  forall acc : R,
    fold_left (fun a x => a + h x) l acc = acc + Rsum (map h l).
Proof.
  induction l as [|x l IH]; intros acc; cbn [fold_left map].
  - rewrite Rsum_nil. ring.
  - rewrite IH, Rsum_cons. ring.
Qed.

Lemma Rsum_rev (l : list R) : Rsum (rev l) = Rsum l.
Proof.
  apply EngineFacts.Rsum_Permutation. symmetry. apply Permutation_rev.
Qed.

Lemma Rsum_map_opp (l : list R) : Rsum (map Ropp l) = - Rsum l.
Proof.
  induction l as [|x l IH]; cbn [map].
  - rewrite Rsum_nil. ring.
  - rewrite !Rsum_cons, IH. ring.
Qed.

(** One more price at the end of a history is one more log-return. *)
Lemma log_returns_snoc (l : list R) (p q : R) :
  log_returns_of ((l ++ [p]) ++ [q])
  = log_returns_of (l ++ [p]) ++ [ln (q / p)].
Proof.
  induction l as [|a l IH]; [reflexivity|].
  destruct l as [|b l'].
  - reflexivity.
  - cbn [app log_returns_of] in *. now rewrite IH.
Qed.

(** The log-returns of the history read backwards are the opposites of the
    log-returns, backwards. *)
Lemma log_returns_rev (prices : list R) :
  Forall (fun p => 0 < p) prices ->
  log_returns_of (rev prices) = map Ropp (rev (log_returns_of prices)).
Proof.
  induction 1 as [|p0 rest Hp0 Hrest IH]; [reflexivity|].
  destruct rest as [|p1 rest']; [reflexivity|].
  assert (Hp1 : 0 < p1) by now inversion Hrest.
  cbn [rev] in *. rewrite log_returns_snoc, IH.
  cbn [log_returns_of rev]. rewrite map_app. cbn [map].
  do 2 f_equal. cbn [flog fdiv Exact.arith].
  rewrite <- ln_Rinv by (apply Rdiv_lt_0_compat; lra).
  f_equal. field. lra.
Qed.

End ReversalFacts.

(** ** The data reader *)

Module ReaderProperties.

Import String.
Local Open Scope string_scope.

(** X1. Only the last column of a line counts. After the inner loop
    [value_str] holds the text after the last comma of the line, the whole
    line when it has no comma; the price of the line is that of its last
    field alone. *)
Theorem last_field_after_last_comma
        (F : Type) (stod : string -> option F) (pre post : string) :
  Csv.occurs Csv.comma post = false ->
  Csv.last_field post = post /\
  Csv.last_field (pre ++ String Csv.comma post) = post /\
  Csv.line_price stod (pre ++ String Csv.comma post) = Csv.line_price stod post.
Proof.
  intros Hpost.
  assert (H1 : Csv.last_field post = post).
  { unfold Csv.last_field.
    rewrite CsvFacts.last_field_loop_spec by lia.
    now rewrite (CsvFacts.split_on_whole _ _ Hpost). }
  assert (H2 : Csv.last_field (pre ++ String Csv.comma post) = post).
  { unfold Csv.last_field.
    rewrite CsvFacts.last_field_loop_spec by lia.
    rewrite CsvFacts.split_on_app.
    rewrite CsvFacts.last_app_not_nil by apply CsvFacts.split_on_not_nil.
    now rewrite (CsvFacts.split_on_whole _ _ Hpost). }
  split; [exact H1|]. split; [exact H2|].
  unfold Csv.line_price. now rewrite H1, H2.
Qed.

Lemma last_field_after_last_comma_witness :
  Csv.occurs Csv.comma "101.5" = false /\
  Csv.last_field "2026-02-03,101.5" = "101.5".
Proof.
  split; [reflexivity|].
  apply (last_field_after_last_comma nat Csv.stod_nat "2026-02-03" "101.5").
  reflexivity.
Defined.

(** X2. The reader returns, in the order of the file, the number
    [std::stod] reads in the last field of each line whose last field is
    not empty, ends with a digit and converts; the fuel of the loops is
    enough for every file. A file that cannot be opened gives no price. *)
Theorem read_prices_closed_form
        (F : Type) (stod : string -> option F)
        (content : string) :
  Csv.read_prices_from_csv stod None = [] /\
  Csv.read_prices_from_csv stod (Some content)
  = Csv.prices_of_lines stod (Csv.file_lines content).
Proof.
  split; [reflexivity|].
  unfold Csv.read_prices_from_csv.
  rewrite CsvFacts.read_loop_spec by lia. reflexivity.
Qed.

(** X3. A newline added at the end of the file changes nothing: the last
    line is read the same with or without it. *)
Theorem final_newline_is_optional
        (F : Type) (stod : string -> option F)
        (content : string) :
  Csv.read_prices_from_csv
    stod (Some (content ++ String Csv.newline EmptyString))
  = Csv.read_prices_from_csv stod (Some content).
Proof.
  unfold Csv.read_prices_from_csv.
  rewrite !CsvFacts.read_loop_spec by lia. f_equal.
  unfold Csv.file_lines at 1.
  rewrite CsvFacts.split_on_app.
  change (Csv.split_on Csv.newline EmptyString)
    with [EmptyString].
  rewrite List.last_last, List.removelast_last. cbn [Csv.is_empty].
  unfold Csv.file_lines.
  destruct (Csv.is_empty
              (List.last (Csv.split_on Csv.newline content) EmptyString))
    eqn:E; [|reflexivity].
  rewrite (List.app_removelast_last EmptyString
             (CsvFacts.split_on_not_nil Csv.newline content)) at 1.
  rewrite CsvFacts.prices_of_lines_app.
  destruct (List.last (Csv.split_on Csv.newline content) EmptyString);
    [|discriminate].
  cbn. now rewrite List.app_nil_r.
Qed.

(** X4. A line whose last character is not a digit gives no price, whatever
    the text before. *)
Theorem line_without_final_digit_is_skipped
        (F : Type) (stod : string -> option F)
        (line : string) :
  Csv.isdigit (Csv.back line) = false ->
  Csv.line_price stod line = None.
Proof.
  apply CsvFacts.line_price_no_digit.
Qed.

Lemma line_without_final_digit_is_skipped_witness :
  Csv.isdigit (Csv.back "Date,Close") = false /\
  Csv.line_price Csv.stod_nat "Date,Close" = None.
Proof.
  split; [reflexivity|].
  apply (line_without_final_digit_is_skipped nat Csv.stod_nat "Date,Close").
  reflexivity.
Defined.

(** X5. From a file with DOS line ends, every line followed by CR LF, the
    reader returns no price at all: the CR stays at the end of each line. *)
Theorem crlf_file_gives_no_price
        (F : Type) (stod : string -> option F)
        (lines : list string) :
  Forall (fun line => Csv.occurs Csv.newline line = false) lines ->
  Csv.read_prices_from_csv stod (Some (Csv.crlf_file lines)) = [].
Proof.
  apply CsvFacts.read_crlf_nil.
Qed.

Lemma crlf_file_gives_no_price_witness :
  Forall (fun line => Csv.occurs Csv.newline line = false)
         ["2026-02-02,100.0"; "2026-02-03,101.5"] /\
  Csv.read_prices_from_csv
    Csv.stod_nat
    (Some (Csv.crlf_file ["2026-02-02,100.0"; "2026-02-03,101.5"])) = [].
Proof.
  assert (H : Forall (fun line => Csv.occurs Csv.newline line = false)
                     ["2026-02-02,100.0"; "2026-02-03,101.5"])
    by (repeat constructor).
  split; [exact H|].
  exact (crlf_file_gives_no_price nat Csv.stod_nat _ H).
Defined.

(** X6. On a file with DOS line ends [main] drops every line and prices
    with the default parameters, spot and strike 100 and volatility 0.2, as
    it does when the file cannot be opened. *)
Theorem main_on_crlf_file_uses_defaults
        (m : Binary64.libm) (stod : string -> option float)
        (fs : string -> option string) (argv : list string)
        (draw : Z -> nat -> float) (env : omp_env) (lines : list string) :
  Forall (fun line => Csv.occurs Csv.newline line = false) lines ->
  fs (Program.csv_file argv) = Some (Csv.crlf_file lines) ->
  Program.main m stod fs argv draw env
  = monte_carlo_pricer (A := Binary64.arith m) draw env
                       100%float 100%float 0.05%float 0.2%float 1%float
                       1000000000 /\
  Program.main m stod fs argv draw env
  = Program.main m stod (fun _ => None) argv draw env.
Proof.
  intros Hlines Hfile. unfold Program.main.
  rewrite Hfile, (CsvFacts.read_crlf_nil stod lines Hlines).
  split; reflexivity.
Qed.

Lemma main_on_crlf_file_uses_defaults_witness :
  Program.main Binary64.series_libm (fun _ => None)
               (fun _ => Some (Csv.crlf_file ["2026-02-02,100.0"]))
               ["pricer"; "prices.csv"] Binary64.pattern_draw env_quad
  = Program.main Binary64.series_libm (fun _ => None) (fun _ => None)
                 ["pricer"; "prices.csv"] Binary64.pattern_draw env_quad.
Proof.
  apply (main_on_crlf_file_uses_defaults
           Binary64.series_libm (fun _ => None)
           (fun _ => Some (Csv.crlf_file ["2026-02-02,100.0"]))
           ["pricer"; "prices.csv"] Binary64.pattern_draw env_quad
           ["2026-02-02,100.0"]).
  - repeat constructor.
  - reflexivity.
Defined.

End ReaderProperties.

(** ** The engine in exact arithmetic *)





(** X9. When every trial of a run with [N > 0] ends at or above the strike,
    the price is the discounted mean terminal price less the discounted
    strike. *)
Theorem in_the_money_run_is_linear
        (draw : Z -> nat -> R) (env : omp_env) (S0 K r sigma T : R) (N : Z) :
  (0 < N)%Z ->
  Forall (fun z => (K <= Spec.terminal_price S0 r sigma T z)%R)
         (team_draws draw env N) ->
  let res := monte_carlo_pricer (A := Exact.arith) draw env S0 K r sigma T N in
  price res = ((avg_final_price res - K) * exp (- r * T))%R.
Proof.
  intros HN Hitm res. subst res. rewrite EngineFacts.pricer_sums.
  cbn [price avg_final_price].
  set (draws := team_draws draw env N) in *.
  assert (Hn : (0 < IZR N)%R) by now apply IZR_lt.
  assert (Hlen : INR (length draws) = IZR N)
    by now apply EngineFacts.team_draws_count.
  rewrite (EngineFacts.Rsum_map_eq
             _ (fun z => (Spec.terminal_price S0 r sigma T z - K)%R)).
  - rewrite EngineFacts.Rsum_map_minus, Hlen. field. lra.
  - eapply Forall_impl; [|exact Hitm]. cbn beta. intros z Hz.
    unfold Spec.call_payoff. apply Rmax_left. lra.
Qed.

Lemma in_the_money_run_is_linear_witness :
  let res := monte_carlo_pricer (A := Exact.arith) Exact.pattern_draw env_quad
                                2%R 1%R 0%R 0%R 1%R 10 in
  price res = ((avg_final_price res - 1) * exp (- 0 * 1))%R.
Proof.
  apply (in_the_money_run_is_linear
           Exact.pattern_draw env_quad 2%R 1%R 0%R 0%R 1%R 10); [lia|].
  apply Forall_forall. intros z _. unfold Spec.terminal_price.
  replace ((0 - 0.5 * 0 ^ 2) * 1 + 0 * sqrt 1 * z)%R with 0%R by ring.
  rewrite exp_0. lra.
Defined.



(** X11. The engine is homogeneous in the spot and the strike: multiplying
    both by [c >= 0] multiplies the price, the standard error and the
    average terminal price by [c], on the same trials. *)
Theorem engine_is_homogeneous
        (draw : Z -> nat -> R) (env : omp_env) (c S0 K r sigma T : R)
        (N : Z) :
  (0 <= c)%R ->
  let res := monte_carlo_pricer (A := Exact.arith) draw env S0 K r sigma T N in
  let res' := monte_carlo_pricer (A := Exact.arith) draw env
                                 (c * S0)%R (c * K)%R r sigma T N in
  price res' = (c * price res)%R /\
  std_error res' = (c * std_error res)%R /\
  avg_final_price res' = (c * avg_final_price res)%R.
Proof.
  intros Hc res res'. subst res res'. rewrite !EngineFacts.pricer_sums.
  cbn [price std_error avg_final_price].
  set (draws := team_draws draw env N).
  set (ST := Spec.terminal_price S0 r sigma T).
  set (P := fun z => Spec.call_payoff (ST z) K).
  assert (HST : forall z, Spec.terminal_price (c * S0) r sigma T z
                          = (c * ST z)%R).
  { intros z. unfold ST, Spec.terminal_price. ring. }
  assert (HP : forall z, Spec.call_payoff
                           (Spec.terminal_price (c * S0) r sigma T z) (c * K)
                         = (c * P z)%R).
  { intros z. rewrite HST. unfold P, Spec.call_payoff.
    rewrite <- (RmaxRmult _ _ _ Hc). f_equal; ring. }
  rewrite (map_ext _ (fun z => (c * ST z)%R) HST).
  rewrite (map_ext _ (fun z => (c * P z)%R) HP).
  rewrite (map_ext (fun z => (Spec.call_payoff
                                (Spec.terminal_price (c * S0) r sigma T z)
                                (c * K) ^ 2)%R)
                   (fun z => (c ^ 2 * P z ^ 2)%R))
    by (intros z; rewrite HP; ring).
  rewrite !EngineFacts.Rsum_map_scal.
  split; [|split].
  - unfold Rdiv. ring.
  - replace (c ^ 2 * Spec.Rsum (map (fun z => (P z ^ 2)%R) draws) / IZR N
             - (c * Spec.Rsum (map P draws) / IZR N) ^ 2)%R
      with (c ^ 2 * (Spec.Rsum (map (fun z => (P z ^ 2)%R) draws) / IZR N
                     - (Spec.Rsum (map P draws) / IZR N) ^ 2))%R
      by (unfold Rdiv; ring).
    rewrite sqrt_mult_alt by apply pow2_ge_0.
    rewrite sqrt_pow2 by exact Hc.
    subst P. cbn beta. unfold Rdiv. ring.
  - unfold Rdiv. ring.
Qed.

Lemma engine_is_homogeneous_witness :
  (price (monte_carlo_pricer (A := Exact.arith) Exact.pattern_draw env_quad
                             (2 * 100) (2 * 100) 0.05 0.2 1 10)
   = 2 * price (monte_carlo_pricer (A := Exact.arith) Exact.pattern_draw
                                   env_quad 100 100 0.05 0.2 1 10))%R.
Proof.
  apply (engine_is_homogeneous Exact.pattern_draw env_quad
                               2%R 100%R 100%R 0.05%R 0.2%R 1%R 10).
  lra.
Defined.

(** X15. In exact arithmetic a run depends on its variates as a multiset
    only: two runs whose variates are a permutation of each other, whatever
    their teams and generators, return the same result. *)
Theorem result_depends_on_multiset
        (draw1 draw2 : Z -> nat -> R) (env1 env2 : omp_env)
        (S0 K r sigma T : R) (N : Z) :
  Permutation (team_draws draw1 env1 N) (team_draws draw2 env2 N) ->
  monte_carlo_pricer (A := Exact.arith) draw1 env1 S0 K r sigma T N
  = monte_carlo_pricer (A := Exact.arith) draw2 env2 S0 K r sigma T N.
Proof.
  intros Hperm. rewrite !EngineFacts.pricer_sums.
  rewrite (EngineFacts.Rsum_Permutation _ _
             (Permutation_map
                (fun z => Spec.call_payoff
                            (Spec.terminal_price S0 r sigma T z) K) Hperm)).
  rewrite (EngineFacts.Rsum_Permutation _ _
             (Permutation_map
                (fun z => (Spec.call_payoff
                             (Spec.terminal_price S0 r sigma T z) K ^ 2)%R)
                Hperm)).
  rewrite (EngineFacts.Rsum_Permutation _ _
             (Permutation_map (Spec.terminal_price S0 r sigma T) Hperm)).
  reflexivity.
Qed.

Lemma result_depends_on_multiset_witness :
  Permutation (team_draws Exact.pattern_draw env_single 7)
              (team_draws Exact.pattern_draw env_seven_late 7) /\
  monte_carlo_pricer (A := Exact.arith) Exact.pattern_draw env_single
                     100%R 100%R 0.05%R 0.2%R 1%R 7
  = monte_carlo_pricer (A := Exact.arith) Exact.pattern_draw env_seven_late
                       100%R 100%R 0.05%R 0.2%R 1%R 7.
Proof.
  assert (Hperm : Permutation (team_draws Exact.pattern_draw env_single 7)
                              (team_draws Exact.pattern_draw env_seven_late 7)).
  { change (team_draws Exact.pattern_draw env_single 7)
      with ((IZR (-3) / 2)%R
            :: [IZR (-2) / 2; IZR (-1) / 2; IZR 0 / 2;
                IZR 1 / 2; IZR 2 / 2; IZR 3 / 2]%R).
    change (team_draws Exact.pattern_draw env_seven_late 7)
      with ([IZR (-2) / 2; IZR (-1) / 2; IZR 0 / 2;
             IZR 1 / 2; IZR 2 / 2; IZR 3 / 2]%R ++ [(IZR (-3) / 2)%R]).
    apply Permutation_cons_append. }
  split; [exact Hperm|].
  apply (result_depends_on_multiset
           Exact.pattern_draw Exact.pattern_draw env_single env_seven_late
           100%R 100%R 0.05%R 0.2%R 1%R 7 Hperm).
Defined.

(** ** The estimator in exact arithmetic *)

(** X12. The estimate does not depend on the unit of the prices: a history
    of positive prices all multiplied by the same [c > 0] has the same
    volatility. *)
Theorem volatility_is_scale_invariant (c : R) (prices : list R) :
  (0 < c)%R -> Forall (fun p => (0 < p)%R) prices ->
  calculate_historical_volatility (A := Exact.arith) (map (Rmult c) prices)
  = calculate_historical_volatility (A := Exact.arith) prices.
Proof.
  intros Hc Hpos. unfold calculate_historical_volatility.
  rewrite length_map, !returns_loop_spec.
  rewrite (EstimatorFacts.log_returns_scaled c prices Hc Hpos).
  reflexivity.
Qed.

Lemma volatility_is_scale_invariant_witness :
  calculate_historical_volatility (A := Exact.arith)
                                  (map (Rmult 100) [1; 1.02; 0.99; 1.03]%R)
  = calculate_historical_volatility (A := Exact.arith) [1; 1.02; 0.99; 1.03]%R.
Proof.
  apply (volatility_is_scale_invariant 100 [1; 1.02; 0.99; 1.03]%R).
  - lra.
  - repeat constructor; lra.
Defined.

(** X13. A history of three prices or more that grows at a constant rate,
    [P_i = P_0 g^i] with [P_0 > 0] and [g > 0], has volatility 0; constant
    prices are the case [g = 1]. *)
Theorem constant_growth_has_no_volatility (p0 g : R) (n : nat) :
  (0 < p0)%R -> (0 < g)%R -> (3 <= n)%nat ->
  calculate_historical_volatility
    (A := Exact.arith) (map (fun i => (p0 * g ^ i)%R) (seq 0 n)) = 0%R.
Proof.
  intros Hp Hg Hn. unfold calculate_historical_volatility.
  rewrite length_map, length_seq.
  destruct (Nat.ltb_spec n 2) as [Hlt|_]; [lia|].
  rewrite returns_loop_spec.
  rewrite (EstimatorFacts.log_returns_geometric p0 g n Hp Hg 0).
  rewrite repeat_length.
  unfold Spec.total, sq_dev_loop.
  cbn [fadd fsub fmul fdiv fsqrt of_int lit_0 lit_252 Exact.arith].
  rewrite (EstimatorFacts.fold_left_repeat (fun x => x)).
  rewrite (EstimatorFacts.fold_left_repeat
             (fun u => ((u - (0 + INR (n - 1) * ln g)
                             / IZR (Z.of_nat (n - 1)))
                        * (u - (0 + INR (n - 1) * ln g)
                               / IZR (Z.of_nat (n - 1))))%R)).
  rewrite <- INR_IZR_INZ.
  assert (Hm : (INR (n - 1) <> 0)%R) by (apply not_0_INR; lia).
  replace ((0 + INR (n - 1) * ln g) / INR (n - 1))%R with (ln g)
    by (field; exact Hm).
  replace (0 + INR (n - 1) * ((ln g - ln g) * (ln g - ln g)))%R with 0%R by ring.
  unfold Rdiv. rewrite Rmult_0_l, sqrt_0. ring.
Qed.

Lemma constant_growth_has_no_volatility_witness :
  calculate_historical_volatility
    (A := Exact.arith) (map (fun i => (100 * 1.01 ^ i)%R) (seq 0 5)) = 0%R.
Proof.
  apply (constant_growth_has_no_volatility 100 1.01 5); [lra|lra|lia].
Defined.

(** X16. In exact arithmetic the estimate is the same whether a history of
    positive prices is read oldest first or newest first. *)
Theorem volatility_of_reversed_history (prices : list R) :
  Forall (fun p => (0 < p)%R) prices ->
  calculate_historical_volatility (A := Exact.arith) (rev prices)
  = calculate_historical_volatility (A := Exact.arith) prices.
Proof.
  intros Hpos. unfold calculate_historical_volatility.
  rewrite length_rev, !returns_loop_spec.
  rewrite (ReversalFacts.log_returns_rev prices Hpos).
  set (us := Spec.log_returns_of prices).
  rewrite length_map, length_rev.
  unfold Spec.total, sq_dev_loop.
  cbn [fadd fsub fmul fdiv fsqrt of_int lit_0 lit_252 Exact.arith].
  rewrite !(ReversalFacts.fold_left_Rsum (fun x => x)), !map_id.
  rewrite !ReversalFacts.fold_left_Rsum.
  assert (Hsum : Spec.Rsum (map Ropp (rev us)) = (- Spec.Rsum us)%R).
  { now rewrite ReversalFacts.Rsum_map_opp, ReversalFacts.Rsum_rev. }
  rewrite Hsum, map_map, map_rev, ReversalFacts.Rsum_rev.
  destruct (length prices <? 2)%nat; [reflexivity|].
  do 5 f_equal. apply map_ext. intros u. unfold Rdiv. ring.
Qed.

Lemma volatility_of_reversed_history_witness :
  calculate_historical_volatility (A := Exact.arith)
                                  (rev [100; 102; 99; 103]%R)
  = calculate_historical_volatility (A := Exact.arith) [100; 102; 99; 103]%R.
Proof.
  apply (volatility_of_reversed_history [100; 102; 99; 103]%R).
  repeat constructor; lra.
Defined.

(** ** Seeds *)

(** X14. Threads that read the same clock tick get different seeds: the
    thread index added at line 84 tells them apart, for any team of at most
    [2^32] threads. *)
Theorem same_tick_seeds_differ (env : omp_env) (t1 t2 : nat) :
  clock_now env t1 = clock_now env t2 ->
  (Z.of_nat t1 < 2 ^ 32)%Z -> (Z.of_nat t2 < 2 ^ 32)%Z ->
  t1 <> t2 ->
  thread_seed env t1 <> thread_seed env t2.
Proof.
  intros Hclock H1 H2 Hneq Hseed.
  unfold thread_seed, uint_wrap in Hseed. rewrite Hclock in Hseed.
  set (c := clock_now env t2) in *.
  pose proof (Z.div_mod (c + Z.of_nat t1) (2 ^ 32) ltac:(lia)) as E1.
  pose proof (Z.div_mod (c + Z.of_nat t2) (2 ^ 32) ltac:(lia)) as E2.
  rewrite Hseed in E1.
  assert (Hq : ((c + Z.of_nat t1) / 2 ^ 32 = (c + Z.of_nat t2) / 2 ^ 32)%Z)
    by nia.
  apply Hneq. lia.
Qed.

Lemma same_tick_seeds_differ_witness :
  thread_seed env_quad 0 <> thread_seed env_quad 3.
Proof.
  apply (same_tick_seeds_differ env_quad 0 3).
  - reflexivity.
  - reflexivity.
  - reflexivity.
  - discriminate.
Defined.
